(** * Citation query engine

    A shallow embedding of
    [llama_index/query_engine/citation_query_engine.py]: the citation-node
    builder ([_create_citation_nodes]) and the query orchestrator
    ([synthesize], [asynthesize], [_query], [_aquery]).

    Python dictionaries are finite maps ([gmap]), Python [int]s are [Z],
    [len] results are [nat].  Calls to the collaborators (retriever,
    response synthesizer, callback manager) are recorded in a trace kept
    in the world that the orchestrator threads through its steps, and a
    collaborator may raise. *)

From Stdlib Require Import Ascii String ZArith Lia.
From stdpp Require Import gmap strings list pretty.

Open Scope string_scope.
Open Scope list_scope.

(** ** Data model *)

(** The line feed of the f-string in [_create_citation_nodes]. *)
Definition nl : string := String (Ascii.ascii_of_nat 10) EmptyString.

(** [Node] of [llama_index.data_structs.node], restricted to the fields the
    engine reads or writes.  [extra_info], [relationships] and [node_info]
    are [Optional] dictionaries; the positional entries of [node_info] are
    Python [int]s, on which [int(...)] is the identity.  [node_info] holds
    the positional entries only: what the engine reads from a passage and
    what it hands to the constructor of a citation node (the constructor of
    the library keeps these entries and adds a bookkeeping entry of its
    own). *)
Record Node := mkNode {
  text : string;
  extra_info : option (gmap string string);
  relationships : option (gmap string string);
  node_info : option (gmap string Z)
}.

(** Python's [sep.join(parts)]. *)
Fixpoint join_with (sep : string) (parts : list string) : string :=
  match parts with
  | [] => ""
  | [part] => part
  | part :: rest => part +:+ sep +:+ join_with sep rest
  end.

(** [Node.extra_info_str] of the library: one line [key: value] for each
    entry of the metadata, joined by line feeds.  The library lists the
    entries in the insertion order of the dictionary, which a finite map
    does not record; here they are listed in the order of [map_to_list].
    Nothing below depends on that order. *)
Definition extra_info_str (metadata : gmap string string) : string :=
  join_with nl ((fun kv => kv.1 +:+ ": " +:+ kv.2) <$> map_to_list metadata).

(** [Node.get_text] of the library, the text that line 185 splits: the
    text of the node, preceded by the metadata lines and an empty line when
    the node has metadata. *)
Definition get_text (n : Node) : string :=
  match extra_info n with
  | Some metadata =>
      if decide (metadata = ∅) then text n
      else extra_info_str metadata +:+ nl +:+ nl +:+ text n
  | None => text n
  end.

(** [NodeWithScore]: the score is an optional float that the engine only
    copies; it is kept as the integer holding its bit pattern. *)
Record NodeWithScore := mkNodeWithScore {
  node : Node;
  score : option Z
}.

(** [TextSplit] of the text splitter: a chunk and the number of characters
    it shares with the previous chunk ([None] when not reported). *)
Record TextSplit := mkTextSplit {
  text_chunk : string;
  num_char_overlap : option nat
}.

(** The [text_splitter] attribute of the engine: a [TokenTextSplitter] with
    its two settings, or a splitter object supplied by the caller. *)
Inductive TextSplitter :=
| TokenTextSplitter (chunk_size chunk_overlap : Z)
| SuppliedTextSplitter (name : string).

Definition DEFAULT_SOURCE_CHUNK_SIZE : Z := 512.
Definition DEFAULT_SOURCE_CHUNK_OVERLAP : Z := 20.

(** Python's [x or {}] on an optional dictionary. *)
Definition or_empty {V : Type} (d : option (gmap string V)) : gmap string V :=
  match d with
  | Some m => if decide (m = ∅) then ∅ else m
  | None => ∅
  end.

(** Python's [x or 0] on an optional count. *)
Definition or_zero (n : option nat) : Z :=
  match n with
  | Some k => if decide (k = 0) then 0%Z else Z.of_nat k
  | None => 0%Z
  end.

(** Lines 187-189: the base offset of a passage. *)
Definition base_offset (n : Node) : Z :=
  match node_info n with
  | Some info => if decide (info = ∅) then 0%Z else default 0%Z (info !! "start")
  | None => 0%Z
  end.

(** [QueryBundle]: the query string and the auxiliary strings handed to the
    retriever; the engine reads [query_str] only. *)
Record QueryBundle := mkQueryBundle {
  query_str : string;
  custom_embedding_strs : option (list string)
}.

(** Modelled from the spec: the [Response] class is imported by the engine;
    a response is the synthesized answer plus the ordered list of nodes it
    was based on. *)
Record Response := mkResponse {
  response : option string;
  source_nodes : list NodeWithScore
}.

(** The two [CBEventType] members the engine uses. *)
Inductive CBEventType := QUERY | RETRIEVE.

(** The values of the payload dictionaries the engine builds. *)
Inductive PayloadValue :=
| PVStr (s : string)
| PVNodes (nodes : list NodeWithScore)
| PVResponse (r : Response).

(** A Python exception raised by a collaborator. *)
Inductive Exception := Exc (msg : string).

(** ** Effects *)

(** What the engine does to the outside, in the order it does it: the calls
    to the callback manager with their arguments (for [on_event_start], the
    identifier it returned), the blocking collaborator calls, and the one
    awaited collaborator call. *)
Inductive Action :=
| OnEventStart (event_type : CBEventType)
    (payload : option (gmap string PayloadValue)) (event_id : nat)
| OnEventEnd (event_type : CBEventType)
    (payload : option (gmap string PayloadValue)) (event_id : nat)
| CallRetrieve (query_bundle : QueryBundle)
| CallSynthesize (query_bundle : QueryBundle) (nodes : list NodeWithScore)
    (additional_source_nodes : option (list NodeWithScore))
| AwaitAsynthesize (query_bundle : QueryBundle) (nodes : list NodeWithScore)
    (additional_source_nodes : option (list NodeWithScore)).

(** The world: the state of the collaborators, the trace so far, and the
    supply of event identifiers of the callback manager. *)
Record World (CS : Type) := mkWorld {
  collab : CS;
  trace : list Action;
  next_event_id : nat
}.
Arguments mkWorld {CS}.
Arguments collab {CS}.
Arguments trace {CS}.
Arguments next_event_id {CS}.

(** A call returns or raises. *)
Inductive outcome (A : Type) :=
| Returned (a : A)
| Raised (e : Exception).
Arguments Returned {A}.
Arguments Raised {A}.

(** Computations over the world that may raise. *)
Definition M (CS A : Type) : Type := World CS -> outcome A * World CS.

Definition M_ret {CS A} (a : A) : M CS A := fun w => (Returned a, w).

Definition M_bind {CS A B} (m : M CS A) (k : A -> M CS B) : M CS B :=
  fun w =>
    match m w with
    | (Returned a, w') => k a w'
    | (Raised e, w') => (Raised e, w')
    end.

Declare Scope engine_scope.
Delimit Scope engine_scope with engine.
Notation "'let*' x := m 'in' k" := (M_bind m (fun x => k))
  (at level 10, x name, m at level 100, k at level 200) : engine_scope.
Notation "m ;;; k" := (M_bind m (fun _ => k))
  (at level 100, k at level 200, right associativity) : engine_scope.

(** Appending one action to the trace. *)
Definition log {CS} (a : Action) (w : World CS) : World CS :=
  {| collab := collab w; trace := trace w ++ [a];
     next_event_id := next_event_id w |}.

(** ** Collaborators *)

(** The retriever: a deterministic function of the query and of the
  collaborator state. *)
Module BaseRetriever.
Record t (CS : Type) := mk {
  retrieve : QueryBundle -> CS -> outcome (list NodeWithScore) * CS
}.
Arguments mk {CS}.
Arguments retrieve {CS}.

(** [retriever.retrieve(query_bundle)], a blocking call. *)
Definition call {CS} (r : t CS) (qb : QueryBundle)
  : M CS (list NodeWithScore) :=
  fun w =>
    let '(o, cs) := retrieve r qb (collab w) in
    (o, {| collab := cs; trace := trace w ++ [CallRetrieve qb];
           next_event_id := next_event_id w |}).
End BaseRetriever.

(** The response synthesizer, with its blocking and its awaitable
  operation. *)
Module ResponseSynthesizer.
Record t (CS : Type) := mk {
  synthesize : QueryBundle -> list NodeWithScore ->
               option (list NodeWithScore) -> CS -> outcome Response * CS;
  asynthesize : QueryBundle -> list NodeWithScore ->
                option (list NodeWithScore) -> CS -> outcome Response * CS
}.
Arguments mk {CS}.
Arguments synthesize {CS}.
Arguments asynthesize {CS}.

(** [synthesizer.synthesize(...)], a blocking call. *)
Definition call {CS} (s : t CS) (qb : QueryBundle)
    (nodes : list NodeWithScore) (extra : option (list NodeWithScore))
  : M CS Response :=
  fun w =>
    let '(o, cs) := synthesize s qb nodes extra (collab w) in
    (o, {| collab := cs; trace := trace w ++ [CallSynthesize qb nodes extra];
           next_event_id := next_event_id w |}).

(** [await synthesizer.asynthesize(...)]. *)
Definition await {CS} (s : t CS) (qb : QueryBundle)
    (nodes : list NodeWithScore) (extra : option (list NodeWithScore))
  : M CS Response :=
  fun w =>
    let '(o, cs) := asynthesize s qb nodes extra (collab w) in
    (o, {| collab := cs; trace := trace w ++ [AwaitAsynthesize qb nodes extra];
           next_event_id := next_event_id w |}).
End ResponseSynthesizer.

(** Modelled from the spec: the callback manager class is imported by the
  engine; it is the notification sink, which receives the start and end
  events with their payloads and never influences control flow or
  results.  [on_event_start] hands out a fresh event identifier. *)
Module CallbackManager.
Definition on_event_start {CS} (event_type : CBEventType)
    (payload : option (gmap string PayloadValue)) : M CS nat :=
  fun w =>
    let event_id := next_event_id w in
    (Returned event_id,
     {| collab := collab w;
        trace := trace w ++ [OnEventStart event_type payload event_id];
        next_event_id := S event_id |}).

Definition on_event_end {CS} (event_type : CBEventType)
    (payload : option (gmap string PayloadValue)) (event_id : nat)
  : M CS unit :=
  fun w => (Returned tt, log (OnEventEnd event_type payload event_id) w).
End CallbackManager.

(** The engine object after [__init__]. *)
Record CitaitonQueryEngine (CS : Type) := mkEngine {
text_splitter : TextSplitter;
_retriever : BaseRetriever.t CS;
_response_synthesizer : ResponseSynthesizer.t CS
}.
Arguments mkEngine {CS}.
Arguments text_splitter {CS}.
Arguments _retriever {CS}.
Arguments _response_synthesizer {CS}.

(** Which actions are notifications, collaborator calls, suspension
  points. *)
Definition is_notification (a : Action) : bool :=
match a with
| OnEventStart _ _ _ | OnEventEnd _ _ _ => true
| _ => false
end.

Definition is_collaborator_call (a : Action) : bool :=
match a with
| CallRetrieve _ | CallSynthesize _ _ _ | AwaitAsynthesize _ _ _ => true
| _ => false
end.

Definition is_suspension_point (a : Action) : bool :=
match a with
| AwaitAsynthesize _ _ _ => true
| _ => false
end.

Definition is_event_end (a : Action) : bool :=
match a with
| OnEventEnd _ _ _ => true
| _ => false
end.

(** ** Citation node builder *)

Section Engine.

Context {CS : Type}.

(** [TokenTextSplitter(chunk_size, chunk_overlap).split_text_with_overlaps]:
    the splitter class is imported by the engine, not defined by it. *)
Variable split_text_with_overlaps : Z -> Z -> string -> list TextSplit.

(** Line 192: the label put in front of a chunk. *)
Definition source_text (number : nat) (chunk : string) : string :=
  "Source " +:+ pretty number +:+ ":" +:+ nl +:+ chunk +:+ nl.

(** Lines 192-213: the body of the inner loop, on the pair of loop
    variables [(new_nodes, start_offset)]. *)
Definition split_step (parent : NodeWithScore)
    (st : list NodeWithScore * Z) (split : TextSplit)
  : list NodeWithScore * Z :=
  let '(new_nodes, start_offset) := st in
  let label := source_text (length new_nodes + 1) (text_chunk split) in
  let overlap := or_zero (num_char_overlap split) in
  let chunk_len := Z.of_nat (String.length (text_chunk split)) in
  let new_node_info : gmap string Z :=
    {[ "start" := (start_offset - overlap)%Z;
       "end" := (start_offset - overlap + chunk_len)%Z ]} in
  (new_nodes ++
     [ {| node := {| text := label;
                     extra_info := Some (or_empty (extra_info (node parent)));
                     relationships := Some (or_empty (relationships (node parent)));
                     node_info := Some new_node_info |};
          score := score parent |} ],
   (start_offset + (chunk_len + 1))%Z).

(** Line 181 and 185: the splits of one passage. *)
Definition citation_splits (parent : NodeWithScore) : list TextSplit :=
  split_text_with_overlaps 256 20 (get_text (node parent)).

(** Lines 184-213: the body of the outer loop, on [new_nodes]. *)
Definition passage_step (new_nodes : list NodeWithScore)
    (parent : NodeWithScore) : list NodeWithScore :=
  fst (fold_left (split_step parent) (citation_splits parent)
         (new_nodes, base_offset (node parent))).


(** Lines 179-214. *)
Definition _create_citation_nodes (self : CitaitonQueryEngine CS)
    (nodes : list NodeWithScore) : list NodeWithScore :=
  fold_left passage_step nodes [].

(** ** Query orchestrator *)

(** [ResponseSynthesizer.from_args(callback_manager=...)], the default
    synthesizer of [__init__]. *)
Variable default_response_synthesizer : ResponseSynthesizer.t CS.

(** Lines 94-112.  The callback manager argument is the sink of the
    world.  An argument that is given is a truthy object, so that [or]
    falls back on the default exactly when the argument is [None]; the
    engines modelled are those whose construction returned (the library's
    [TokenTextSplitter] refuses an overlap larger than the chunk size). *)
Definition __init__ (retriever : BaseRetriever.t CS)
    (response_synthesizer : option (ResponseSynthesizer.t CS))
    (source_chunk_size source_chunk_overlap : Z)
    (text_splitter : option TextSplitter) : CitaitonQueryEngine CS :=
  {| text_splitter :=
       default (TokenTextSplitter source_chunk_size source_chunk_overlap)
               text_splitter;
     _retriever := retriever;
     _response_synthesizer :=
       default default_response_synthesizer response_synthesizer |}.

Local Open Scope engine_scope.

(** Lines 216-217. *)
Definition retrieve (self : CitaitonQueryEngine CS)
    (query_bundle : QueryBundle) : M CS (list NodeWithScore) :=
  BaseRetriever.call (_retriever self) query_bundle.

(** Lines 224-236. *)
Definition synthesize (self : CitaitonQueryEngine CS)
    (query_bundle : QueryBundle) (nodes : list NodeWithScore)
    (additional_source_nodes : option (list NodeWithScore))
  : M CS Response :=
  let nodes := _create_citation_nodes self nodes in
  let* response :=
    ResponseSynthesizer.call (_response_synthesizer self)
      query_bundle nodes additional_source_nodes in
  M_ret response.

(** Lines 238-249. *)
Definition asynthesize (self : CitaitonQueryEngine CS)
    (query_bundle : QueryBundle) (nodes : list NodeWithScore)
    (additional_source_nodes : option (list NodeWithScore))
  : M CS Response :=
  let nodes := _create_citation_nodes self nodes in
  ResponseSynthesizer.await (_response_synthesizer self)
    query_bundle nodes additional_source_nodes.

(** Lines 251-274. *)
Definition _query (self : CitaitonQueryEngine CS)
    (query_bundle : QueryBundle) : M CS Response :=
  let* query_id :=
    CallbackManager.on_event_start QUERY
      (Some {[ "query_str" := PVStr (query_str query_bundle) ]}) in
  let* retrieve_id := CallbackManager.on_event_start RETRIEVE None in
  let* nodes := BaseRetriever.call (_retriever self) query_bundle in
  let nodes := _create_citation_nodes self nodes in
  CallbackManager.on_event_end RETRIEVE
    (Some {[ "nodes" := PVNodes nodes ]}) retrieve_id ;;;
  let* response :=
    ResponseSynthesizer.call (_response_synthesizer self)
      query_bundle nodes None in
  CallbackManager.on_event_end QUERY
    (Some {[ "response" := PVResponse response ]}) query_id ;;;
  M_ret response.

(** Lines 276-299. *)
Definition _aquery (self : CitaitonQueryEngine CS)
    (query_bundle : QueryBundle) : M CS Response :=
  let* query_id :=
    CallbackManager.on_event_start QUERY
      (Some {[ "query_str" := PVStr (query_str query_bundle) ]}) in
  let* retrieve_id := CallbackManager.on_event_start RETRIEVE None in
  let* nodes := BaseRetriever.call (_retriever self) query_bundle in
  let nodes := _create_citation_nodes self nodes in
  CallbackManager.on_event_end RETRIEVE
    (Some {[ "nodes" := PVNodes nodes ]}) retrieve_id ;;;
  let* response :=
    ResponseSynthesizer.await (_response_synthesizer self)
      query_bundle nodes None in
  CallbackManager.on_event_end QUERY
    (Some {[ "response" := PVResponse response ]}) query_id ;;;
  M_ret response.

End Engine.

(** ** Closed forms used to state the properties *)

(** The citation node of one split: the value appended by [split_step]. *)
Definition citation_node (parent : NodeWithScore) (number : nat)
    (start_offset : Z) (split : TextSplit) : NodeWithScore :=
  let overlap := or_zero (num_char_overlap split) in
  let chunk_len := Z.of_nat (String.length (text_chunk split)) in
  {| node := {| text := source_text number (text_chunk split);
                extra_info := Some (or_empty (extra_info (node parent)));
                relationships := Some (or_empty (relationships (node parent)));
                node_info :=
                  Some {[ "start" := (start_offset - overlap)%Z;
                          "end" := (start_offset - overlap + chunk_len)%Z ]} |};
     score := score parent |}.

(** The nodes of one passage, given how many nodes exist already and the
    running offset. *)
Fixpoint passage_nodes (parent : NodeWithScore) (count : nat)
    (start_offset : Z) (splits : list TextSplit) : list NodeWithScore :=
  match splits with
  | [] => []
  | split :: rest =>
      citation_node parent (count + 1) start_offset split ::
      passage_nodes parent (S count)
        (start_offset + (Z.of_nat (String.length (text_chunk split)) + 1))%Z
        rest
  end.

(** The nodes of a sequence of passages, given how many nodes exist
    already. *)
Fixpoint nodes_from (split_text_with_overlaps : Z -> Z -> string -> list TextSplit)
    (count : nat) (passages : list NodeWithScore) : list NodeWithScore :=
  match passages with
  | [] => []
  | p :: rest =>
      let splits := citation_splits split_text_with_overlaps p in
      passage_nodes p count (base_offset (node p)) splits ++
      nodes_from split_text_with_overlaps (count + length splits) rest
  end.

(** The chunk texts of a sequence of passages, in passage-then-chunk
    order. *)
Definition chunk_texts (split_text_with_overlaps : Z -> Z -> string -> list TextSplit)
    (passages : list NodeWithScore) : list string :=
  mjoin ((fun p => text_chunk <$> citation_splits split_text_with_overlaps p)
           <$> passages).

(** The Citation Nodes that the builder derives from the passage [p] when it
    stands between the passages [before] and [after]: the segment of the
    output appended while the outer loop is at [p]. *)
Definition derived_from {CS : Type}
    (split_text_with_overlaps : Z -> Z -> string -> list TextSplit)
    (self : CitaitonQueryEngine CS)
    (before : list NodeWithScore) (p : NodeWithScore)
    (after : list NodeWithScore) : list NodeWithScore :=
  take (length (citation_splits split_text_with_overlaps p))
    (drop (length (_create_citation_nodes split_text_with_overlaps self before))
       (_create_citation_nodes split_text_with_overlaps self
          (before ++ p :: after))).

(** The offset rule in the words of the specification: from the running
    [startOffset], a split with declared overlap [o] and chunk length [L]
    gets [newStart = startOffset - o] and [newEnd = newStart + L], and the
    running offset advances by [L + 1]. *)
Fixpoint offset_rule (startOffset : Z) (splits : list (Z * Z))
  : list (Z * Z) :=
  match splits with
  | [] => []
  | (o, L) :: rest =>
      let newStart := (startOffset - o)%Z in
      let newEnd := (newStart + L)%Z in
      (newStart, newEnd) :: offset_rule (startOffset + L + 1)%Z rest
  end.

(** The declared overlap and the chunk length of a split. *)
Definition split_measure (split : TextSplit) : Z * Z :=
  (or_zero (num_char_overlap split),
   Z.of_nat (String.length (text_chunk split))).

(** The positional info dictionary of a pair of offsets. *)
Definition offsets_info (se : Z * Z) : option (gmap string Z) :=
  Some {[ "start" := se.1; "end" := se.2 ]}.

(** The actions a computation added to the trace of the world [w]. *)
Definition emitted {CS A} (m : M CS A) (w : World CS) : list Action :=
  drop (length (trace w)) (trace (m w).2).

(** A string without a colon. *)
Fixpoint no_colon (s : string) : bool :=
  match s with
  | EmptyString => true
  | String c rest =>
      if Ascii.eqb c ":"%char then false else no_colon rest
  end.

(** The notifications, the collaborator calls, the suspension points and
    the end events of a trace, in order. *)
Definition notifications (t : list Action) : list Action :=
  List.filter is_notification t.

Definition collaborator_calls (t : list Action) : list Action :=
  List.filter is_collaborator_call t.

Definition suspension_points (t : list Action) : list Action :=
  List.filter is_suspension_point t.

Definition end_events (t : list Action) : list Action :=
  List.filter is_event_end t.

(** The reading of the suspension claim on a trace: every collaborator call
    in it is a suspension point. *)
Definition every_collaborator_call_suspends (t : list Action) : Prop :=
  forall a, a ∈ t -> is_collaborator_call a = true ->
            is_suspension_point a = true.

(** ** A concrete scenario *)

(** Thirty characters. *)
Definition thirty_chars : string := "abcdefghijklmnopqrstuvwxyz0123".

(** A splitter for the scenario: the thirty characters split into chunks of
    20 and 11 characters that share one character, any other text is one
    chunk, the empty text has no chunk. *)
Definition scenario_split (chunk_size chunk_overlap : Z) (t : string)
  : list TextSplit :=
  if decide (t = "") then []
  else if decide (t = thirty_chars)
       then [ mkTextSplit (substring 0 20 t) None;
              mkTextSplit (substring 19 11 t) (Some 1) ]
       else [ mkTextSplit t None ].

(** A splitter that agrees with [scenario_split] at 256/20 only. *)
Definition scenario_split_coarse (chunk_size chunk_overlap : Z) (t : string)
  : list TextSplit :=
  if decide (chunk_size = 256%Z ∧ chunk_overlap = 20%Z)
  then scenario_split chunk_size chunk_overlap t
  else [ mkTextSplit t (Some 5) ].

Definition passage_at_100 : NodeWithScore :=
  {| node := {| text := thirty_chars;
                extra_info := Some {[ "author" := "ann" ]};
                relationships := None;
                node_info := Some {[ "start" := 100%Z; "end" := 130%Z ]} |};
     score := Some 7%Z |}.

(** The same passage without metadata: the text that is split is the
    thirty characters themselves. *)
Definition passage_plain_at_100 : NodeWithScore :=
  {| node := {| text := thirty_chars;
                extra_info := None;
                relationships := None;
                node_info := Some {[ "start" := 100%Z; "end" := 130%Z ]} |};
     score := Some 7%Z |}.

Definition passage_sky : NodeWithScore :=
  {| node := {| text := "The sky is red in the evening and blue in the morning.";
                extra_info := None;
                relationships := Some {[ "next" := "water" ]};
                node_info := None |};
     score := Some 3%Z |}.

Definition passage_water : NodeWithScore :=
  {| node := {| text := "Water is wet when the sky is red.";
                extra_info := None;
                relationships := None;
                node_info := None |};
     score := None |}.

Definition passage_unplaced : NodeWithScore :=
  {| node := {| text := thirty_chars;
                extra_info := None;
                relationships := None;
                node_info := None |};
     score := Some 1%Z |}.

Definition scenario_query : QueryBundle :=
  {| query_str := "When is water wet?"; custom_embedding_strs := None |}.

(** Collaborators whose state counts the calls they received. *)
Definition scenario_retriever : BaseRetriever.t nat :=
  BaseRetriever.mk
    (fun _ calls => (Returned [passage_sky; passage_water], S calls)).

Definition failing_retriever : BaseRetriever.t nat :=
  BaseRetriever.mk (fun _ calls => (Raised (Exc "retriever failed"), S calls)).

Definition scenario_answer (nodes : list NodeWithScore)
    (extra : option (list NodeWithScore)) : Response :=
  {| response := Some "Water is wet when the sky is red [2].";
     source_nodes := nodes ++ default [] extra |}.

Definition scenario_synthesizer : ResponseSynthesizer.t nat :=
  ResponseSynthesizer.mk
    (fun _ nodes extra calls => (Returned (scenario_answer nodes extra), S calls))
    (fun _ nodes extra calls => (Returned (scenario_answer nodes extra), S calls)).

Definition failing_synthesizer : ResponseSynthesizer.t nat :=
  ResponseSynthesizer.mk
    (fun _ _ _ calls => (Raised (Exc "synthesizer failed"), S calls))
    (fun _ _ _ calls => (Raised (Exc "synthesizer failed"), S calls)).

Definition scenario_engine : CitaitonQueryEngine nat :=
  __init__ scenario_synthesizer scenario_retriever None
    DEFAULT_SOURCE_CHUNK_SIZE DEFAULT_SOURCE_CHUNK_OVERLAP None.

Definition scenario_world : World nat :=
  {| collab := 0; trace := []; next_event_id := 0 |}.

Definition engine_without_retrieval : CitaitonQueryEngine nat :=
  __init__ scenario_synthesizer failing_retriever None
    DEFAULT_SOURCE_CHUNK_SIZE DEFAULT_SOURCE_CHUNK_OVERLAP None.

Definition engine_without_synthesis : CitaitonQueryEngine nat :=
  __init__ scenario_synthesizer scenario_retriever (Some failing_synthesizer)
    DEFAULT_SOURCE_CHUNK_SIZE DEFAULT_SOURCE_CHUNK_OVERLAP None.

(** The citation nodes of the two passages of the scenario. *)
Definition scenario_citations : list NodeWithScore :=
  _create_citation_nodes scenario_split scenario_engine
    [passage_sky; passage_water].

(** ** Vocabulary of the further properties *)

(** The fields of a node other than its text. *)
Definition node_fields (nd : NodeWithScore)
  : option (gmap string string) * option (gmap string string) *
    option (gmap string Z) * option Z :=
  (extra_info (node nd), relationships (node nd), node_info (node nd),
   score nd).

(** How far line 201 has moved the running offset after a sequence of
    splits: each split moves it by its chunk length plus one. *)
Definition consumed (splits : list TextSplit) : Z :=
  fold_right
    (fun split acc =>
       (Z.of_nat (String.length (text_chunk split)) + 1 + acc)%Z)
    0%Z splits.

(** A passage with its positional info replaced. *)
Definition with_node_info (info : option (gmap string Z))
    (p : NodeWithScore) : NodeWithScore :=
  {| node := {| text := text (node p);
                extra_info := extra_info (node p);
                relationships := relationships (node p);
                node_info := info |};
     score := score p |}.

(** The [start] and [end] entries of the positional info of a node. *)
Definition node_start (nd : NodeWithScore) : option Z :=
  match node_info (node nd) with
  | Some info => info !! "start"
  | None => None
  end.

Definition node_end (nd : NodeWithScore) : option Z :=
  match node_info (node nd) with
  | Some info => info !! "end"
  | None => None
  end.

(** A caller that runs the two public steps of the engine one after the
    other: [nodes = engine.retrieve(qb)], then
    [engine.synthesize(qb, nodes)]. *)
Definition retrieve_then_synthesize {CS : Type}
    (split_text_with_overlaps : Z -> Z -> string -> list TextSplit)
    (self : CitaitonQueryEngine CS) (query_bundle : QueryBundle)
  : M CS Response :=
  M_bind (retrieve self query_bundle)
    (fun nodes => synthesize split_text_with_overlaps self query_bundle
                    nodes None).

(** The same caller on the awaitable step:
    [nodes = engine.retrieve(qb)], then
    [await engine.asynthesize(qb, nodes)]. *)
Definition retrieve_then_asynthesize {CS : Type}
    (split_text_with_overlaps : Z -> Z -> string -> list TextSplit)
    (self : CitaitonQueryEngine CS) (query_bundle : QueryBundle)
  : M CS Response :=
  M_bind (retrieve self query_bundle)
    (fun nodes => asynthesize split_text_with_overlaps self query_bundle
                    nodes None).

(** Lines 219-222: the [retriever] property. *)
Definition retriever {CS : Type} (self : CitaitonQueryEngine CS)
  : BaseRetriever.t CS :=
  _retriever self.

(** An end event is answered by a start event of the same type and
    identifier that stands before it in the list of actions. *)
Definition ends_follow_starts (actions : list Action) : Prop :=
  forall before event_type payload event_id after,
    actions = before ++ OnEventEnd event_type payload event_id :: after ->
    exists payload', OnEventStart event_type payload' event_id ∈ before.

(** ** The prompt templates *)

(** Lines 24-45, the string handed to [Prompt]. *)
Definition CITATION_QA_TEMPLATE : string :=
  "Please provide an answer based only on the given sources. " +:+
  "When referencing information from a source, " +:+
  "cite the appropriate source(s) by their numbers. " +:+
  "All answers should provide at least one source. " +:+
  "Do not use a source if it does not help answer a question. " +:+
  "If no sources are helpful, you should say that. " +:+
  "For example:" +:+ nl +:+
  "Source 1:" +:+ nl +:+
  "The sky is red in the evening and blue in the morning." +:+ nl +:+
  "Source 2:" +:+ nl +:+
  "Water is wet when the sky is red." +:+ nl +:+
  "Query: When is water wet?" +:+ nl +:+
  "Answer: Water will be wet when the sky is red [2], " +:+
  "which happens in the evening [1]." +:+ nl +:+
  "Now it's your turn. Below are several numbered sources of information:" +:+
  nl +:+ "------" +:+ nl +:+
  "{context_str}" +:+
  nl +:+ "------" +:+ nl +:+
  "Query: {query_str}" +:+ nl +:+
  "Answer: ".

(** Lines 47-71, the string handed to [Prompt]. *)
Definition CITATION_REFINE_TEMPLATE : string :=
  "Please provide an answer based only on the given sources. " +:+
  "When referencing information from a source, cite the appropriate source(s). " +:+
  "All answers should provide at least one source. " +:+
  "Do not use a source if it does not help answer a question. " +:+
  "For example:" +:+ nl +:+
  "Source 1:" +:+ nl +:+
  "The sky is red in the evening and blue in the morning." +:+ nl +:+
  "Source 2:" +:+ nl +:+
  "Water is wet when the sky is red." +:+ nl +:+
  "Query: When is water wet?" +:+ nl +:+
  "Answer: Water will be wet when the sky is red [2], " +:+
  "which happens in the evening [1]." +:+ nl +:+
  "Now it's your turn. " +:+
  "We have provided an existing answer: {existing_answer}" +:+
  "Below are several numbered sources of information. " +:+
  "Use them to refine the existing answer. " +:+
  "If the provided sources are not helpful, you will repeat the existing answer." +:+
  nl +:+ "Begin refining!" +:+
  nl +:+ "------" +:+ nl +:+
  "{context_msg}" +:+
  nl +:+ "------" +:+ nl +:+
  "Query: {query_str}" +:+ nl +:+
  "Answer: ".

(** One string occurs in another, at some position. *)
Definition occurs_in (needle hay : string) : Prop :=
  exists position,
    substring position (String.length needle) hay = needle.

(** The concatenation of a list of strings. *)
Definition concat_strings (l : list string) : string :=
  fold_right String.append "" l.

(** Two more passages for the scenario: one with an empty text, one whose
    positional info has an [end] entry only. *)
Definition passage_blank : NodeWithScore :=
  {| node := {| text := "";
                extra_info := None;
                relationships := None;
                node_info := Some {[ "start" := 5%Z ]} |};
     score := Some 2%Z |}.

Definition passage_end_only : NodeWithScore :=
  {| node := {| text := thirty_chars;
                extra_info := None;
                relationships := None;
                node_info := Some {[ "end" := 30%Z ]} |};
     score := Some 1%Z |}.

(** * Properties *)

(** ** The builder as a closed form *)

Section BuilderFacts.

Context {CS : Type}.
Variable split_text_with_overlaps : Z -> Z -> string -> list TextSplit.

Local Abbreviation splits_of := (citation_splits split_text_with_overlaps).
Local Abbreviation build := (_create_citation_nodes split_text_with_overlaps).

Lemma split_step_eq parent new_nodes start_offset split :
  split_step parent (new_nodes, start_offset) split =
  (new_nodes ++ [citation_node parent (length new_nodes + 1) start_offset split],
   (start_offset + (Z.of_nat (String.length (text_chunk split)) + 1))%Z).
Proof. reflexivity. Qed.

Lemma inner_loop parent splits : forall new_nodes start_offset,
  (fold_left (split_step parent) splits (new_nodes, start_offset)).1 =
  new_nodes ++ passage_nodes parent (length new_nodes) start_offset splits.
Proof.
  induction splits as [|split rest IH]; intros new_nodes start_offset;
    cbn [fold_left].
  - simpl. by rewrite app_nil_r.
  - rewrite split_step_eq, IH, length_app, <- app_assoc. simpl.
    by replace (length new_nodes + 1) with (S (length new_nodes)) by lia.
Qed.

Lemma passage_step_eq new_nodes parent :
  passage_step split_text_with_overlaps new_nodes parent =
  new_nodes ++ passage_nodes parent (length new_nodes)
                 (base_offset (node parent)) (splits_of parent).
Proof. unfold passage_step. apply inner_loop. Qed.

Lemma length_passage_nodes parent splits : forall count start_offset,
  length (passage_nodes parent count start_offset splits) = length splits.
Proof.
  induction splits as [|split rest IH]; intros; simpl; [done|by rewrite IH].
Qed.

Lemma outer_loop passages : forall new_nodes,
  fold_left (passage_step split_text_with_overlaps) passages new_nodes =
  new_nodes ++ nodes_from split_text_with_overlaps (length new_nodes) passages.
Proof.
  induction passages as [|p rest IH]; intros new_nodes; simpl.
  - by rewrite app_nil_r.
  - rewrite IH, passage_step_eq, length_app, length_passage_nodes.
    by rewrite <- app_assoc.
Qed.

Lemma build_eq (self : CitaitonQueryEngine CS) passages :
  build self passages = nodes_from split_text_with_overlaps 0 passages.
Proof. unfold _create_citation_nodes. by rewrite outer_loop. Qed.

Lemma length_nodes_from passages : forall count,
  length (nodes_from split_text_with_overlaps count passages) =
  sum_list_with (fun p => length (splits_of p)) passages.
Proof.
  induction passages as [|p rest IH]; intros; simpl; [done|].
  by rewrite length_app, length_passage_nodes, IH.
Qed.

Lemma nodes_from_app before after : forall count,
  nodes_from split_text_with_overlaps count (before ++ after) =
  nodes_from split_text_with_overlaps count before ++
  nodes_from split_text_with_overlaps
    (count + length (nodes_from split_text_with_overlaps count before)) after.
Proof.
  induction before as [|p rest IH]; intros count; simpl.
  - by rewrite Nat.add_0_r.
  - rewrite IH, <- app_assoc, length_app, length_passage_nodes.
    by rewrite Nat.add_assoc.
Qed.

(** The segment of the output that belongs to a passage. *)
Lemma derived_from_eq (self : CitaitonQueryEngine CS) before p after :
  derived_from split_text_with_overlaps self before p after =
  passage_nodes p (length (build self before)) (base_offset (node p))
    (splits_of p).
Proof.
  unfold derived_from. rewrite !build_eq, nodes_from_app. simpl.
  rewrite drop_app_length.
  rewrite take_app_length'; [done|by rewrite length_passage_nodes].
Qed.

Lemma build_decompose (self : CitaitonQueryEngine CS) before p after :
  exists rest,
    build self (before ++ p :: after) =
    build self before ++
    derived_from split_text_with_overlaps self before p after ++ rest.
Proof.
  rewrite derived_from_eq, !build_eq, nodes_from_app. simpl. eauto.
Qed.

End BuilderFacts.

(** ** Labels *)

Lemma no_colon_pretty_N_go (x : N) : forall s,
  no_colon (pretty_N_go x s) = no_colon s.
Proof.
  induction (N.lt_wf_0 x) as [x _ IH]; intros s.
  destruct (decide (x = 0%N)) as [->|Hx].
  - by rewrite pretty_N_go_0.
  - rewrite pretty_N_go_step by lia.
    rewrite IH by (apply N.div_lt; lia).
    simpl. unfold pretty_N_char. by repeat case_match.
Qed.

Lemma no_colon_pretty (n : nat) : no_colon (pretty n) = true.
Proof.
  unfold pretty, pretty_nat, pretty, pretty_N.
  case_decide; [done|]. by rewrite no_colon_pretty_N_go.
Qed.

Lemma colon_delimits (a b r1 r2 : string) :
  no_colon a = true -> no_colon b = true ->
  a +:+ String ":" r1 = b +:+ String ":" r2 -> a = b.
Proof.
  revert b. induction a as [|c a IH]; intros [|d b]; simpl; intros Ha Hb Heq.
  - done.
  - injection Heq as <- _. simpl in Hb. done.
  - injection Heq as -> _. simpl in Ha. done.
  - injection Heq as -> Heq.
    destruct (Ascii.eqb d ":"); [done|].
    f_equal. by apply IH.
Qed.

(** The label determines the citation number. *)
Lemma source_text_number (n m : nat) (c d : string) :
  source_text n c = source_text m d -> n = m.
Proof.
  unfold source_text. simpl. intros Heq.
  injection Heq as Heq.
  apply colon_delimits in Heq; auto using no_colon_pretty.
  by apply (inj pretty) in Heq.
Qed.

Section NumberingFacts.

Context {CS : Type}.
Variable split_text_with_overlaps : Z -> Z -> string -> list TextSplit.

Local Abbreviation splits_of := (citation_splits split_text_with_overlaps).
Local Abbreviation build := (_create_citation_nodes split_text_with_overlaps).

Lemma passage_nodes_texts parent splits : forall count start_offset,
  (text ∘ node) <$> passage_nodes parent count start_offset splits =
  zip_with source_text (seq (count + 1) (length splits))
    (text_chunk <$> splits).
Proof.
  induction splits as [|split rest IH]; intros count start_offset; simpl.
  - done.
  - rewrite IH. by replace (S count + 1) with (S (count + 1)) by lia.
Qed.

Lemma chunk_texts_cons p rest :
  chunk_texts split_text_with_overlaps (p :: rest) =
  (text_chunk <$> splits_of p) ++ chunk_texts split_text_with_overlaps rest.
Proof. reflexivity. Qed.

Lemma length_chunk_texts passages :
  length (chunk_texts split_text_with_overlaps passages) =
  sum_list_with (fun p => length (splits_of p)) passages.
Proof.
  induction passages as [|p rest IH]; [done|].
  rewrite chunk_texts_cons, length_app, length_fmap, IH. done.
Qed.

Lemma nodes_from_texts passages : forall count,
  (text ∘ node) <$> nodes_from split_text_with_overlaps count passages =
  zip_with source_text
    (seq (count + 1)
       (length (chunk_texts split_text_with_overlaps passages)))
    (chunk_texts split_text_with_overlaps passages).
Proof.
  induction passages as [|p rest IH]; intros count; [done|].
  cbn [nodes_from]. rewrite fmap_app, passage_nodes_texts, IH.
  rewrite chunk_texts_cons, length_app, seq_app, length_fmap.
  rewrite zip_with_app by (by rewrite length_seq, length_fmap).
  by replace (count + 1 + length (splits_of p))
    with (count + length (splits_of p) + 1) by lia.
Qed.

(** C1.  For passages that split into k_1, ..., k_N chunks the builder
    returns exactly k_1 + ... + k_N citation nodes; the node at position i
    (counting from 1, passage by passage and chunk by chunk) has the text
    [Source i:], a line feed, the i-th chunk text, a line feed, so that the
    citation numbers are 1, 2, ..., k_1 + ... + k_N in that order; and two
    different positions never carry the same label. *)
Theorem citation_numbers_contiguous (self : CitaitonQueryEngine CS)
    (passages : list NodeWithScore) :
  let out := build self passages in
  let chunks := chunk_texts split_text_with_overlaps passages in
  length out = sum_list_with (fun p => length (splits_of p)) passages /\
  length chunks = length out /\
  (text ∘ node) <$> out = zip_with source_text (seq 1 (length out)) chunks /\
  (forall i nd, out !! i = Some nd ->
     exists chunk, chunks !! i = Some chunk /\
       text (node nd) =
       "Source " +:+ pretty (i + 1) +:+ ":" +:+ nl +:+ chunk +:+ nl) /\
  (forall i j a b, out !! i = Some a -> out !! j = Some b ->
     text (node a) = text (node b) -> i = j).
Proof.
  intros out chunks.
  assert (Hlen : length out =
                 sum_list_with (fun p => length (splits_of p)) passages).
  { subst out. by rewrite build_eq, length_nodes_from. }
  assert (Hchunks : length chunks = length out).
  { subst chunks. by rewrite length_chunk_texts. }
  assert (Htexts : (text ∘ node) <$> out =
                   zip_with source_text (seq 1 (length out)) chunks).
  { subst out chunks. rewrite build_eq, nodes_from_texts.
    by rewrite length_chunk_texts, length_nodes_from. }
  assert (Hat : forall i nd, out !! i = Some nd ->
     exists chunk, chunks !! i = Some chunk /\
       text (node nd) = source_text (i + 1) chunk).
  { intros i nd Hi.
    assert (Hlt : i < length chunks).
    { rewrite Hchunks. by eapply lookup_lt_Some. }
    destruct (lookup_lt_is_Some_2 chunks i Hlt) as [chunk Hc].
    exists chunk. split; [done|].
    assert (Hz : ((text ∘ node) <$> out) !! i = Some (text (node nd))).
    { by rewrite list_lookup_fmap, Hi. }
    rewrite Htexts in Hz.
    apply lookup_zip_with_Some in Hz as (n & c & -> & Hn & Hc').
    rewrite Hc in Hc'. injection Hc' as <-.
    apply lookup_seq in Hn as [-> _]. f_equal. lia. }
  repeat split; try done.
  intros i j a b Hi Hj Heq.
  destruct (Hat i a Hi) as (ci & _ & Ha).
  destruct (Hat j b Hj) as (cj & _ & Hb).
  rewrite Ha, Hb in Heq. apply source_text_number in Heq. lia.
Qed.

End NumberingFacts.

(** ** Offsets, copied fields and the fixed splitter *)

Lemma or_empty_default {V : Type} (d : option (gmap string V)) :
  or_empty d = default ∅ d.
Proof. destruct d as [m|]; simpl; [|done]. by case_decide. Qed.

Lemma or_zero_of_nat (n : option nat) : or_zero n = Z.of_nat (default 0 n).
Proof. destruct n as [k|]; simpl; [|done]. case_decide; [by subst|done]. Qed.

Lemma base_offset_declared (n : Node) (info : gmap string Z) (s : Z) :
  node_info n = Some info -> info !! "start" = Some s -> base_offset n = s.
Proof.
  unfold base_offset. intros -> Hs.
  case_decide as He; [|by rewrite Hs].
  subst info. by rewrite lookup_empty in Hs.
Qed.

Lemma base_offset_absent (n : Node) : node_info n = None -> base_offset n = 0%Z.
Proof. unfold base_offset. by intros ->. Qed.

Lemma base_offset_no_start (n : Node) :
  (forall info, node_info n = Some info -> info !! "start" = None) ->
  base_offset n = 0%Z.
Proof.
  unfold base_offset. intros Hno.
  destruct (node_info n) as [info|]; [|done].
  case_decide; [done|]. by rewrite (Hno info eq_refl).
Qed.

Lemma passage_nodes_infos parent splits : forall count start_offset,
  (node_info ∘ node) <$> passage_nodes parent count start_offset splits =
  offsets_info <$> offset_rule start_offset (split_measure <$> splits).
Proof.
  induction splits as [|split rest IH]; intros count start_offset; [done|].
  cbn [passage_nodes fmap list_fmap offset_rule split_measure].
  rewrite IH. by rewrite Z.add_assoc.
Qed.

Lemma passage_nodes_copied parent splits : forall count start_offset,
  Forall (fun nd =>
            extra_info (node nd) = Some (default ∅ (extra_info (node parent))) /\
            relationships (node nd) =
              Some (default ∅ (relationships (node parent))) /\
            score nd = score parent)
         (passage_nodes parent count start_offset splits).
Proof.
  induction splits as [|split rest IH]; intros count start_offset;
    cbn [passage_nodes].
  - constructor.
  - constructor; [|apply IH].
    unfold citation_node. cbn [node extra_info relationships score].
    by rewrite !or_empty_default.
Qed.

Lemma nodes_from_agree (f g : Z -> Z -> string -> list TextSplit) passages :
  (forall t, f 256%Z 20%Z t = g 256%Z 20%Z t) ->
  forall count, nodes_from f count passages = nodes_from g count passages.
Proof.
  intros Hfg. induction passages as [|p rest IH]; intros count; [done|].
  cbn [nodes_from]. unfold citation_splits. by rewrite Hfg, IH.
Qed.

Section OffsetFacts.

Context {CS : Type}.
Variable split_text_with_overlaps : Z -> Z -> string -> list TextSplit.

Local Abbreviation splits_of := (citation_splits split_text_with_overlaps).
Local Abbreviation build := (_create_citation_nodes split_text_with_overlaps).
Local Abbreviation derived := (derived_from split_text_with_overlaps).

(** C2.  For a passage whose positional info declares [start = s], the
    positional infos of the citation nodes derived from it are those of the
    offset rule started at [s]: the j-th node gets
    [newStart = startOffset - o_j] and [newEnd = newStart + L_j], after
    which [startOffset] advances by [L_j + 1].  In particular, with
    [start = 100] and two chunks of lengths 20 and 11 of which the second
    declares one character of overlap, the offsets are 100..120 and
    120..131. *)
Theorem offsets_follow_rule (self : CitaitonQueryEngine CS)
    (before : list NodeWithScore) (p : NodeWithScore)
    (after : list NodeWithScore) (info : gmap string Z) (s : Z) :
  node_info (node p) = Some info ->
  info !! "start" = Some s ->
  (node_info ∘ node) <$> derived self before p after =
    offsets_info <$> offset_rule s (split_measure <$> splits_of p) /\
  (forall c1 o1 c2,
     splits_of p = [ mkTextSplit c1 o1; mkTextSplit c2 (Some 1) ] ->
     or_zero o1 = 0%Z -> String.length c1 = 20 -> String.length c2 = 11 ->
     s = 100%Z ->
     (node_info ∘ node) <$> derived self before p after =
       [ Some {[ "start" := 100%Z; "end" := 120%Z ]};
         Some {[ "start" := 120%Z; "end" := 131%Z ]} ]).
Proof.
  intros Hinfo Hs.
  assert (Hrule : (node_info ∘ node) <$> derived self before p after =
    offsets_info <$> offset_rule s (split_measure <$> splits_of p)).
  { rewrite derived_from_eq, passage_nodes_infos.
    by rewrite (base_offset_declared _ _ _ Hinfo Hs). }
  split; [done|].
  intros c1 o1 c2 Hsplits Ho1 Hc1 Hc2 ->.
  rewrite Hrule, Hsplits. unfold split_measure. simpl.
  rewrite Ho1, Hc1, Hc2. reflexivity.
Qed.

(** C8.  A passage without positional info, whether its [node_info] is
    absent, is the empty dictionary or is a dictionary without a [start]
    entry, is built from base offset 0 and nothing is raised: the
    positional infos of its citation nodes are those of the offset rule
    started at 0, and when the first split declares no overlap the first
    node has [start = 0] and [end] equal to the chunk length. *)
Theorem absent_info_defaults_to_zero (self : CitaitonQueryEngine CS)
    (before : list NodeWithScore) (p : NodeWithScore)
    (after : list NodeWithScore) :
  (forall info, node_info (node p) = Some info -> info !! "start" = None) ->
  (node_info ∘ node) <$> derived self before p after =
    offsets_info <$> offset_rule 0 (split_measure <$> splits_of p) /\
  (forall split rest,
     splits_of p = split :: rest ->
     or_zero (num_char_overlap split) = 0%Z ->
     (node_info ∘ node) <$> head (derived self before p after) =
       Some (Some {[ "start" := 0%Z;
                     "end" := Z.of_nat (String.length (text_chunk split)) ]})).
Proof.
  intros Hinfo.
  assert (Hbase : base_offset (node p) = 0%Z) by (by apply base_offset_no_start).
  assert (Hrule : (node_info ∘ node) <$> derived self before p after =
    offsets_info <$> offset_rule 0 (split_measure <$> splits_of p)).
  { by rewrite derived_from_eq, passage_nodes_infos, Hbase. }
  split; [done|].
  intros split rest Hsplits Ho.
  rewrite derived_from_eq, Hsplits, Hbase. simpl.
  rewrite Ho. reflexivity.
Qed.

(** C7.  Every citation node derived from a passage carries the passage's
    metadata map and relationship map (the empty map when the passage has
    none) and the passage's score; and every node of the output is derived
    from one of the input passages in this way. *)
Theorem parent_fields_carried (self : CitaitonQueryEngine CS)
    (before : list NodeWithScore) (p : NodeWithScore)
    (after : list NodeWithScore) :
  Forall (fun nd =>
            extra_info (node nd) = Some (default ∅ (extra_info (node p))) /\
            relationships (node nd) =
              Some (default ∅ (relationships (node p))) /\
            score nd = score p)
         (derived self before p after) /\
  (forall nd, nd ∈ build self (before ++ p :: after) ->
     exists parent, parent ∈ before ++ p :: after /\
       extra_info (node nd) = Some (default ∅ (extra_info (node parent))) /\
       relationships (node nd) =
         Some (default ∅ (relationships (node parent))) /\
       score nd = score parent).
Proof.
  split.
  - rewrite derived_from_eq. apply passage_nodes_copied.
  - intros nd. rewrite build_eq. generalize 0.
    induction (before ++ p :: after) as [|q rest IH]; intros count Hin.
    + by apply elem_of_nil in Hin.
    + cbn [nodes_from] in Hin. apply elem_of_app in Hin as [Hin|Hin].
      * exists q. split; [by left|].
        pose proof (passage_nodes_copied q (splits_of q) count
                      (base_offset (node q))) as Hall.
        rewrite Forall_forall in Hall. by apply Hall.
      * destruct (IH _ Hin) as (parent & Hp & Hrest).
        exists parent. split; [by right|done].
Qed.

End OffsetFacts.

(** C5.  The builder consults the token splitter at chunk size 256 and
    overlap 20 only, and nothing of the engine: two engines constructed
    with different [source_chunk_size], [source_chunk_overlap] and
    [text_splitter] build the same citation nodes from the same passages,
    also when the splitter behaves differently at every other setting. *)
Theorem citation_splitter_fixed {CS : Type}
    (split1 split2 : Z -> Z -> string -> list TextSplit)
    (default_synthesizer : ResponseSynthesizer.t CS)
    (retriever : BaseRetriever.t CS)
    (response_synthesizer : option (ResponseSynthesizer.t CS))
    (size1 overlap1 size2 overlap2 : Z)
    (splitter1 splitter2 : option TextSplitter)
    (passages : list NodeWithScore) :
  (forall t, split1 256%Z 20%Z t = split2 256%Z 20%Z t) ->
  _create_citation_nodes split1
    (__init__ default_synthesizer retriever response_synthesizer
       size1 overlap1 splitter1) passages =
  _create_citation_nodes split2
    (__init__ default_synthesizer retriever response_synthesizer
       size2 overlap2 splitter2) passages.
Proof.
  intros Hagree. rewrite !build_eq. by apply nodes_from_agree.
Qed.

(** ** The orchestrator *)

Lemma notifications_app (t1 t2 : list Action) :
  notifications (t1 ++ t2) = notifications t1 ++ notifications t2.
Proof. apply List.filter_app. Qed.

Section OrchestratorFacts.

Context {CS : Type}.
Variable split_text_with_overlaps : Z -> Z -> string -> list TextSplit.

Local Abbreviation build := (_create_citation_nodes split_text_with_overlaps).
Local Abbreviation query := (_query split_text_with_overlaps).
Local Abbreviation aquery := (_aquery split_text_with_overlaps).

(** The actions of the common prefix of both query paths. *)
Lemma query_run (self : CitaitonQueryEngine CS) (qb : QueryBundle)
    (w : World CS) :
  query self qb w =
  let id := next_event_id w in
  let started :=
    trace w ++
    [ OnEventStart QUERY (Some {[ "query_str" := PVStr (query_str qb) ]}) id;
      OnEventStart RETRIEVE None (S id);
      CallRetrieve qb ] in
  match BaseRetriever.retrieve (_retriever self) qb (collab w) with
  | (Raised e, cs1) =>
      (Raised e, {| collab := cs1; trace := started;
                    next_event_id := S (S id) |})
  | (Returned found, cs1) =>
      let nodes := build self found in
      let retrieved :=
        started ++
        [ OnEventEnd RETRIEVE (Some {[ "nodes" := PVNodes nodes ]}) (S id);
          CallSynthesize qb nodes None ] in
      match ResponseSynthesizer.synthesize (_response_synthesizer self)
              qb nodes None cs1 with
      | (Raised e, cs2) =>
          (Raised e, {| collab := cs2; trace := retrieved;
                        next_event_id := S (S id) |})
      | (Returned r, cs2) =>
          (Returned r,
           {| collab := cs2;
              trace := retrieved ++
                [ OnEventEnd QUERY (Some {[ "response" := PVResponse r ]}) id ];
              next_event_id := S (S id) |})
      end
  end.
Proof.
  unfold _query, M_bind, M_ret, CallbackManager.on_event_start,
    CallbackManager.on_event_end, BaseRetriever.call,
    ResponseSynthesizer.call, log.
  cbn [collab trace next_event_id].
  destruct (BaseRetriever.retrieve _ _ _) as [[found|e] cs1];
    cbn [collab trace next_event_id].
  - destruct (ResponseSynthesizer.synthesize _ _ _ _ _) as [[r|e] cs2];
      cbn [collab trace next_event_id];
      by rewrite <- !app_assoc.
  - by rewrite <- !app_assoc.
Qed.

Lemma aquery_run (self : CitaitonQueryEngine CS) (qb : QueryBundle)
    (w : World CS) :
  aquery self qb w =
  let id := next_event_id w in
  let started :=
    trace w ++
    [ OnEventStart QUERY (Some {[ "query_str" := PVStr (query_str qb) ]}) id;
      OnEventStart RETRIEVE None (S id);
      CallRetrieve qb ] in
  match BaseRetriever.retrieve (_retriever self) qb (collab w) with
  | (Raised e, cs1) =>
      (Raised e, {| collab := cs1; trace := started;
                    next_event_id := S (S id) |})
  | (Returned found, cs1) =>
      let nodes := build self found in
      let retrieved :=
        started ++
        [ OnEventEnd RETRIEVE (Some {[ "nodes" := PVNodes nodes ]}) (S id);
          AwaitAsynthesize qb nodes None ] in
      match ResponseSynthesizer.asynthesize (_response_synthesizer self)
              qb nodes None cs1 with
      | (Raised e, cs2) =>
          (Raised e, {| collab := cs2; trace := retrieved;
                        next_event_id := S (S id) |})
      | (Returned r, cs2) =>
          (Returned r,
           {| collab := cs2;
              trace := retrieved ++
                [ OnEventEnd QUERY (Some {[ "response" := PVResponse r ]}) id ];
              next_event_id := S (S id) |})
      end
  end.
Proof.
  unfold _aquery, M_bind, M_ret, CallbackManager.on_event_start,
    CallbackManager.on_event_end, BaseRetriever.call,
    ResponseSynthesizer.await, log.
  cbn [collab trace next_event_id].
  destruct (BaseRetriever.retrieve _ _ _) as [[found|e] cs1];
    cbn [collab trace next_event_id].
  - destruct (ResponseSynthesizer.asynthesize _ _ _ _ _) as [[r|e] cs2];
      cbn [collab trace next_event_id];
      by rewrite <- !app_assoc.
  - by rewrite <- !app_assoc.
Qed.

Lemma emitted_app {A} (m : M CS A) (w : World CS) (added : list Action) :
  trace (m w).2 = trace w ++ added -> emitted m w = added.
Proof. unfold emitted. intros ->. by rewrite drop_app_length. Qed.

(** C4.  When the retriever and the synthesizer both return, [_query]
    returns the synthesizer's response and adds to the trace, in this
    order: the start of the query event with the query string, the start of
    the retrieve event, the retriever call, the end of the retrieve event
    with the citation nodes already built from the retrieved passages, the
    synthesizer call on these citation nodes, and the end of the query event
    with the response that is returned. *)
Theorem query_notification_order (self : CitaitonQueryEngine CS)
    (qb : QueryBundle) (w : World CS) (found : list NodeWithScore)
    (cs1 cs2 : CS) (r : Response) :
  BaseRetriever.retrieve (_retriever self) qb (collab w) =
    (Returned found, cs1) ->
  ResponseSynthesizer.synthesize (_response_synthesizer self) qb
    (build self found) None cs1 = (Returned r, cs2) ->
  (query self qb w).1 = Returned r /\
  emitted (query self qb) w =
    [ OnEventStart QUERY (Some {[ "query_str" := PVStr (query_str qb) ]})
        (next_event_id w);
      OnEventStart RETRIEVE None (S (next_event_id w));
      CallRetrieve qb;
      OnEventEnd RETRIEVE (Some {[ "nodes" := PVNodes (build self found) ]})
        (S (next_event_id w));
      CallSynthesize qb (build self found) None;
      OnEventEnd QUERY (Some {[ "response" := PVResponse r ]})
        (next_event_id w) ] /\
  trace (query self qb w).2 = trace w ++ emitted (query self qb) w.
Proof.
  intros Hretrieve Hsynthesize.
  assert (Htrace : trace (query self qb w).2 = trace w ++
    [ OnEventStart QUERY (Some {[ "query_str" := PVStr (query_str qb) ]})
        (next_event_id w);
      OnEventStart RETRIEVE None (S (next_event_id w));
      CallRetrieve qb;
      OnEventEnd RETRIEVE (Some {[ "nodes" := PVNodes (build self found) ]})
        (S (next_event_id w));
      CallSynthesize qb (build self found) None;
      OnEventEnd QUERY (Some {[ "response" := PVResponse r ]})
        (next_event_id w) ]).
  { rewrite query_run. cbv zeta. rewrite Hretrieve, Hsynthesize.
    cbn [snd trace]. by rewrite <- !app_assoc. }
  rewrite (emitted_app _ _ _ Htrace). split; [|done].
  rewrite query_run. cbv zeta. by rewrite Hretrieve, Hsynthesize.
Qed.

(** C3.  When the synthesizer's awaitable operation returns what its
    blocking operation returns, [_aquery] and [_query] started in the same
    world end with the same outcome (the same response or the same
    exception), the same sequence of notifications with the same payloads
    and identifiers, and the same collaborator state. *)
Theorem query_paths_agree (self : CitaitonQueryEngine CS)
    (qb : QueryBundle) (w : World CS) :
  (forall qb' nodes extra cs,
     ResponseSynthesizer.asynthesize (_response_synthesizer self)
       qb' nodes extra cs =
     ResponseSynthesizer.synthesize (_response_synthesizer self)
       qb' nodes extra cs) ->
  (aquery self qb w).1 = (query self qb w).1 /\
  notifications (trace (aquery self qb w).2) =
    notifications (trace (query self qb w).2) /\
  collab (aquery self qb w).2 = collab (query self qb w).2 /\
  next_event_id (aquery self qb w).2 = next_event_id (query self qb w).2.
Proof.
  intros Hsame. rewrite query_run, aquery_run. cbv zeta.
  destruct (BaseRetriever.retrieve _ _ _) as [[found|e] cs1]; [|done].
  rewrite Hsame.
  destruct (ResponseSynthesizer.synthesize _ _ _ _ _) as [[r|e] cs2];
    cbn [fst snd trace collab next_event_id];
    rewrite !notifications_app; done.
Qed.

(** C10.  When the retriever raises, both query paths raise the same
    exception after having added the two start events and the retriever
    call to the trace, and no end event.  When the retriever returns and
    the synthesizer raises, both paths raise that exception after the end
    of the retrieve event and the synthesizer call, and the end of the
    query event is not emitted. *)
Theorem failing_paths_leave_events_open (self : CitaitonQueryEngine CS)
    (qb : QueryBundle) (w : World CS) (e : Exception) :
  (forall cs1,
     BaseRetriever.retrieve (_retriever self) qb (collab w) = (Raised e, cs1) ->
     let started :=
       [ OnEventStart QUERY (Some {[ "query_str" := PVStr (query_str qb) ]})
           (next_event_id w);
         OnEventStart RETRIEVE None (S (next_event_id w));
         CallRetrieve qb ] in
     (query self qb w).1 = Raised e /\
     emitted (query self qb) w = started /\
     (aquery self qb w).1 = Raised e /\
     emitted (aquery self qb) w = started /\
     end_events started = []) /\
  (forall found cs1 cs2,
     BaseRetriever.retrieve (_retriever self) qb (collab w) =
       (Returned found, cs1) ->
     ResponseSynthesizer.synthesize (_response_synthesizer self) qb
       (build self found) None cs1 = (Raised e, cs2) ->
     (query self qb w).1 = Raised e /\
     emitted (query self qb) w =
       [ OnEventStart QUERY (Some {[ "query_str" := PVStr (query_str qb) ]})
           (next_event_id w);
         OnEventStart RETRIEVE None (S (next_event_id w));
         CallRetrieve qb;
         OnEventEnd RETRIEVE
           (Some {[ "nodes" := PVNodes (build self found) ]})
           (S (next_event_id w));
         CallSynthesize qb (build self found) None ] /\
     end_events (emitted (query self qb) w) =
       [ OnEventEnd RETRIEVE
           (Some {[ "nodes" := PVNodes (build self found) ]})
           (S (next_event_id w)) ]) /\
  (forall found cs1 cs2,
     BaseRetriever.retrieve (_retriever self) qb (collab w) =
       (Returned found, cs1) ->
     ResponseSynthesizer.asynthesize (_response_synthesizer self) qb
       (build self found) None cs1 = (Raised e, cs2) ->
     (aquery self qb w).1 = Raised e /\
     emitted (aquery self qb) w =
       [ OnEventStart QUERY (Some {[ "query_str" := PVStr (query_str qb) ]})
           (next_event_id w);
         OnEventStart RETRIEVE None (S (next_event_id w));
         CallRetrieve qb;
         OnEventEnd RETRIEVE
           (Some {[ "nodes" := PVNodes (build self found) ]})
           (S (next_event_id w));
         AwaitAsynthesize qb (build self found) None ] /\
     end_events (emitted (aquery self qb) w) =
       [ OnEventEnd RETRIEVE
           (Some {[ "nodes" := PVNodes (build self found) ]})
           (S (next_event_id w)) ]).
Proof.
  split; [|split].
  - intros cs1 Hretrieve started.
    assert (Hq : trace (query self qb w).2 = trace w ++ started).
    { rewrite query_run. cbv zeta. by rewrite Hretrieve. }
    assert (Ha : trace (aquery self qb w).2 = trace w ++ started).
    { rewrite aquery_run. cbv zeta. by rewrite Hretrieve. }
    rewrite (emitted_app _ _ _ Hq), (emitted_app _ _ _ Ha).
    rewrite query_run, aquery_run. cbv zeta. by rewrite Hretrieve.
  - intros found cs1 cs2 Hretrieve Hsynthesize.
    match goal with |- _ /\ emitted _ _ = ?l /\ _ =>
      assert (Hq : trace (query self qb w).2 = trace w ++ l) end.
    { rewrite query_run. cbv zeta. rewrite Hretrieve, Hsynthesize.
      cbn [snd trace]. by rewrite <- !app_assoc. }
    rewrite (emitted_app _ _ _ Hq).
    rewrite query_run. cbv zeta. by rewrite Hretrieve, Hsynthesize.
  - intros found cs1 cs2 Hretrieve Hsynthesize.
    match goal with |- _ /\ emitted _ _ = ?l /\ _ =>
      assert (Ha : trace (aquery self qb w).2 = trace w ++ l) end.
    { rewrite aquery_run. cbv zeta. rewrite Hretrieve, Hsynthesize.
      cbn [snd trace]. by rewrite <- !app_assoc. }
    rewrite (emitted_app _ _ _ Ha).
    rewrite aquery_run. cbv zeta. by rewrite Hretrieve, Hsynthesize.
Qed.

(** C6.  [synthesize] and [asynthesize] make exactly one collaborator call:
    the synthesizer receives the citation nodes built from the primary
    passages and, as its third argument, the additional source nodes
    exactly as they were given.  The citation nodes do not depend on the
    additional source nodes, and the outcome is the synthesizer's. *)
Theorem additional_nodes_pass_through (self : CitaitonQueryEngine CS)
    (qb : QueryBundle) (passages : list NodeWithScore)
    (additional : option (list NodeWithScore)) (w : World CS) :
  emitted (synthesize split_text_with_overlaps self qb passages additional) w =
    [ CallSynthesize qb (build self passages) additional ] /\
  emitted (asynthesize split_text_with_overlaps self qb passages additional) w =
    [ AwaitAsynthesize qb (build self passages) additional ] /\
  synthesize split_text_with_overlaps self qb passages additional w =
    ((ResponseSynthesizer.synthesize (_response_synthesizer self) qb
        (build self passages) additional (collab w)).1,
     {| collab :=
          (ResponseSynthesizer.synthesize (_response_synthesizer self) qb
             (build self passages) additional (collab w)).2;
        trace := trace w ++
                 [ CallSynthesize qb (build self passages) additional ];
        next_event_id := next_event_id w |}) /\
  asynthesize split_text_with_overlaps self qb passages additional w =
    ((ResponseSynthesizer.asynthesize (_response_synthesizer self) qb
        (build self passages) additional (collab w)).1,
     {| collab :=
          (ResponseSynthesizer.asynthesize (_response_synthesizer self) qb
             (build self passages) additional (collab w)).2;
        trace := trace w ++
                 [ AwaitAsynthesize qb (build self passages) additional ];
        next_event_id := next_event_id w |}).
Proof.
  assert (Hs : synthesize split_text_with_overlaps self qb passages additional w =
    ((ResponseSynthesizer.synthesize (_response_synthesizer self) qb
        (build self passages) additional (collab w)).1,
     {| collab :=
          (ResponseSynthesizer.synthesize (_response_synthesizer self) qb
             (build self passages) additional (collab w)).2;
        trace := trace w ++
                 [ CallSynthesize qb (build self passages) additional ];
        next_event_id := next_event_id w |})).
  { unfold synthesize, M_bind, M_ret, ResponseSynthesizer.call.
    by destruct (ResponseSynthesizer.synthesize _ _ _ _ _) as [[r|e] cs]. }
  assert (Ha : asynthesize split_text_with_overlaps self qb passages additional w =
    ((ResponseSynthesizer.asynthesize (_response_synthesizer self) qb
        (build self passages) additional (collab w)).1,
     {| collab :=
          (ResponseSynthesizer.asynthesize (_response_synthesizer self) qb
             (build self passages) additional (collab w)).2;
        trace := trace w ++
                 [ AwaitAsynthesize qb (build self passages) additional ];
        next_event_id := next_event_id w |})).
  { unfold asynthesize, ResponseSynthesizer.await.
    by destruct (ResponseSynthesizer.asynthesize _ _ _ _ _) as [[r|e] cs]. }
  repeat split; try done.
  - apply emitted_app. by rewrite Hs.
  - apply emitted_app. by rewrite Ha.
Qed.

(** C9, amended.  In [_aquery] the retrieval is the blocking call of the
    retriever and does not suspend; the only suspension point is the awaited
    synthesizer call, reached when the retriever returns; building the
    citation nodes adds nothing to the trace. *)
Theorem aquery_suspends_at_synthesis_only (self : CitaitonQueryEngine CS)
    (qb : QueryBundle) (w : World CS) :
  let awaited :=
    match BaseRetriever.retrieve (_retriever self) qb (collab w) with
    | (Returned found, _) => [ AwaitAsynthesize qb (build self found) None ]
    | (Raised _, _) => []
    end in
  suspension_points (emitted (aquery self qb) w) = awaited /\
  collaborator_calls (emitted (aquery self qb) w) = CallRetrieve qb :: awaited.
Proof.
  intros awaited. subst awaited.
  assert (Hex : exists added,
    trace (aquery self qb w).2 = trace w ++ added /\
    suspension_points added =
      match BaseRetriever.retrieve (_retriever self) qb (collab w) with
      | (Returned found, _) => [ AwaitAsynthesize qb (build self found) None ]
      | (Raised _, _) => []
      end /\
    collaborator_calls added = CallRetrieve qb ::
      match BaseRetriever.retrieve (_retriever self) qb (collab w) with
      | (Returned found, _) => [ AwaitAsynthesize qb (build self found) None ]
      | (Raised _, _) => []
      end).
  { rewrite aquery_run. cbv zeta.
    destruct (BaseRetriever.retrieve _ _ _) as [[found|e] cs1].
    - destruct (ResponseSynthesizer.asynthesize _ _ _ _ _) as [[r|e] cs2];
        cbn [snd trace]; rewrite <- ?app_assoc; eexists; (split; [done|]);
        done.
    - cbn [snd trace]. eexists. split; [done|]. done. }
  destruct Hex as (added & Htrace & Hsusp & Hcalls).
  by rewrite (emitted_app _ _ _ Htrace).
Qed.

End OrchestratorFacts.

(** ** The scenario *)

(** The two passages of the scenario become the sources 1 and 2. *)
Example scenario_labels :
  (text ∘ node) <$> scenario_citations =
  [ "Source 1:" +:+ nl +:+
      "The sky is red in the evening and blue in the morning." +:+ nl;
    "Source 2:" +:+ nl +:+ "Water is wet when the sky is red." +:+ nl ].
Proof. reflexivity. Qed.

(** The metadata of a passage is part of the text that is split: the
    passage with an author is one chunk of 43 characters. *)
Example metadata_is_split_with_the_text :
  get_text (node passage_at_100) =
    "author: ann" +:+ nl +:+ nl +:+ thirty_chars /\
  (node_info ∘ node) <$>
    _create_citation_nodes scenario_split scenario_engine [passage_at_100] =
  [ Some {[ "start" := 100%Z; "end" := 143%Z ]} ].
Proof. split; reflexivity. Qed.

Lemma citation_numbers_contiguous_witness :
  length scenario_citations = 2 /\
  (forall i j a b,
     scenario_citations !! i = Some a -> scenario_citations !! j = Some b ->
     text (node a) = text (node b) -> i = j).
Proof.
  pose proof (citation_numbers_contiguous scenario_split scenario_engine
                [passage_sky; passage_water]) as (Hlen & _ & _ & _ & Hfresh).
  split; [exact Hlen | exact Hfresh].
Defined.

Lemma offsets_follow_rule_witness :
  node_info (node passage_plain_at_100) =
    Some {[ "start" := 100%Z; "end" := 130%Z ]} /\
  ({[ "start" := 100%Z; "end" := 130%Z ]} : gmap string Z) !! "start" =
    Some 100%Z /\
  (node_info ∘ node) <$>
    derived_from scenario_split scenario_engine
      [passage_sky] passage_plain_at_100 [passage_water] =
  [ Some {[ "start" := 100%Z; "end" := 120%Z ]};
    Some {[ "start" := 120%Z; "end" := 131%Z ]} ].
Proof.
  split; [reflexivity|]. split; [reflexivity|].
  refine (proj2 (offsets_follow_rule scenario_split scenario_engine
                   [passage_sky] passage_plain_at_100 [passage_water]
                   {[ "start" := 100%Z; "end" := 130%Z ]} 100%Z
                   eq_refl eq_refl)
            "abcdefghijklmnopqrst" None "tuvwxyz0123"
            eq_refl eq_refl eq_refl eq_refl eq_refl).
Defined.

Lemma end_only_declares_no_start (info : gmap string Z) :
  node_info (node passage_end_only) = Some info -> info !! "start" = None.
Proof. intros Hinfo. injection Hinfo as <-. reflexivity. Defined.

Lemma absent_info_defaults_to_zero_witness :
  ((forall info, node_info (node passage_unplaced) = Some info ->
                 info !! "start" = None) /\
   (node_info ∘ node) <$>
     head (derived_from scenario_split scenario_engine
             [passage_sky] passage_unplaced []) =
   Some (Some {[ "start" := 0%Z; "end" := 20%Z ]})) /\
  ((forall info, node_info (node passage_end_only) = Some info ->
                 info !! "start" = None) /\
   (node_info ∘ node) <$>
     derived_from scenario_split scenario_engine
       [passage_sky] passage_end_only [] =
   [ Some {[ "start" := 0%Z; "end" := 20%Z ]};
     Some {[ "start" := 20%Z; "end" := 31%Z ]} ]).
Proof.
  split.
  - split; [discriminate|].
    refine (proj2 (absent_info_defaults_to_zero scenario_split scenario_engine
                     [passage_sky] passage_unplaced [] _)
              (mkTextSplit "abcdefghijklmnopqrst" None)
              [mkTextSplit "tuvwxyz0123" (Some 1)] eq_refl eq_refl).
    discriminate.
  - split; [exact end_only_declares_no_start|].
    exact (proj1 (absent_info_defaults_to_zero scenario_split scenario_engine
                    [passage_sky] passage_end_only []
                    end_only_declares_no_start)).
Defined.

Lemma parent_fields_carried_witness :
  Forall (fun nd =>
            extra_info (node nd) = Some {[ "author" := "ann" ]} /\
            relationships (node nd) = Some ∅ /\
            score nd = Some 7%Z)
         (derived_from scenario_split scenario_engine
            [passage_sky] passage_at_100 [passage_water]).
Proof.
  exact (proj1 (parent_fields_carried scenario_split scenario_engine
                  [passage_sky] passage_at_100 [passage_water])).
Defined.

Lemma citation_splitter_fixed_witness :
  (forall t, scenario_split 256%Z 20%Z t = scenario_split_coarse 256%Z 20%Z t) /\
  scenario_split 64%Z 5%Z thirty_chars <>
    scenario_split_coarse 64%Z 5%Z thirty_chars /\
  _create_citation_nodes scenario_split
    (__init__ scenario_synthesizer scenario_retriever None
       512%Z 20%Z None) [passage_at_100] =
  _create_citation_nodes scenario_split_coarse
    (__init__ scenario_synthesizer scenario_retriever None
       64%Z 5%Z (Some (SuppliedTextSplitter "sentences"))) [passage_at_100].
Proof.
  split; [reflexivity|]. split; [discriminate|].
  apply (citation_splitter_fixed scenario_split scenario_split_coarse).
  reflexivity.
Defined.

Lemma query_notification_order_witness :
  BaseRetriever.retrieve (_retriever scenario_engine) scenario_query
    (collab scenario_world) = (Returned [passage_sky; passage_water], 1) /\
  ResponseSynthesizer.synthesize (_response_synthesizer scenario_engine)
    scenario_query scenario_citations None 1 =
    (Returned (scenario_answer scenario_citations None), 2) /\
  (_query scenario_split scenario_engine scenario_query scenario_world).1 =
    Returned (scenario_answer scenario_citations None) /\
  emitted (_query scenario_split scenario_engine scenario_query)
    scenario_world =
    [ OnEventStart QUERY (Some {[ "query_str" := PVStr "When is water wet?" ]}) 0;
      OnEventStart RETRIEVE None 1;
      CallRetrieve scenario_query;
      OnEventEnd RETRIEVE (Some {[ "nodes" := PVNodes scenario_citations ]}) 1;
      CallSynthesize scenario_query scenario_citations None;
      OnEventEnd QUERY
        (Some {[ "response" :=
                   PVResponse (scenario_answer scenario_citations None) ]}) 0 ].
Proof.
  split; [reflexivity|]. split; [reflexivity|].
  pose proof (query_notification_order scenario_split scenario_engine
                scenario_query scenario_world [passage_sky; passage_water]
                1 2 (scenario_answer scenario_citations None)
                eq_refl eq_refl) as (Hout & Hemitted & _).
  split; [exact Hout | exact Hemitted].
Defined.

Lemma query_paths_agree_witness :
  (forall qb' nodes extra cs,
     ResponseSynthesizer.asynthesize (_response_synthesizer scenario_engine)
       qb' nodes extra cs =
     ResponseSynthesizer.synthesize (_response_synthesizer scenario_engine)
       qb' nodes extra cs) /\
  (_aquery scenario_split scenario_engine scenario_query scenario_world).1 =
    (_query scenario_split scenario_engine scenario_query scenario_world).1 /\
  notifications
    (trace (_aquery scenario_split scenario_engine scenario_query
              scenario_world).2) =
  notifications
    (trace (_query scenario_split scenario_engine scenario_query
              scenario_world).2).
Proof.
  split; [reflexivity|].
  pose proof (query_paths_agree scenario_split scenario_engine scenario_query
                scenario_world (fun _ _ _ _ => eq_refl))
    as (Hout & Hnotes & _).
  split; [exact Hout | exact Hnotes].
Defined.

Lemma failing_paths_leave_events_open_witness :
  BaseRetriever.retrieve (_retriever engine_without_retrieval) scenario_query
    (collab scenario_world) = (Raised (Exc "retriever failed"), 1) /\
  (_query scenario_split engine_without_retrieval scenario_query
     scenario_world).1 = Raised (Exc "retriever failed") /\
  end_events (emitted (_query scenario_split engine_without_retrieval
                         scenario_query) scenario_world) = [] /\
  ResponseSynthesizer.synthesize (_response_synthesizer engine_without_synthesis)
    scenario_query scenario_citations None 1 =
    (Raised (Exc "synthesizer failed"), 2) /\
  (_query scenario_split engine_without_synthesis scenario_query
     scenario_world).1 = Raised (Exc "synthesizer failed") /\
  end_events (emitted (_query scenario_split engine_without_synthesis
                         scenario_query) scenario_world) =
    [ OnEventEnd RETRIEVE (Some {[ "nodes" := PVNodes scenario_citations ]}) 1 ] /\
  (_aquery scenario_split engine_without_synthesis scenario_query
     scenario_world).1 = Raised (Exc "synthesizer failed").
Proof.
  destruct (failing_paths_leave_events_open scenario_split
              engine_without_retrieval scenario_query scenario_world
              (Exc "retriever failed")) as (Hretriever & _ & _).
  destruct (Hretriever 1 eq_refl) as (Hq & Hemitted & _ & _ & Hends).
  destruct (failing_paths_leave_events_open scenario_split
              engine_without_synthesis scenario_query scenario_world
              (Exc "synthesizer failed")) as (_ & Hsync & Hasync).
  destruct (Hsync [passage_sky; passage_water] 1 2 eq_refl eq_refl)
    as (Hq' & _ & Hends').
  destruct (Hasync [passage_sky; passage_water] 1 2 eq_refl eq_refl)
    as (Ha' & _ & _).
  split; [reflexivity|]. split; [exact Hq|].
  split; [rewrite Hemitted; exact Hends|].
  split; [reflexivity|]. split; [exact Hq'|].
  split; [exact Hends' | exact Ha'].
Defined.

(** C9 as claimed fails: in the scenario the retrieval of [_aquery] is a
    collaborator call that is not a suspension point. *)
Lemma aquery_retrieval_blocks :
  ~ every_collaborator_call_suspends
      (emitted (_aquery scenario_split scenario_engine scenario_query)
         scenario_world).
Proof.
  intros Hall.
  assert (Hin : CallRetrieve scenario_query ∈
                emitted (_aquery scenario_split scenario_engine scenario_query)
                  scenario_world).
  { apply list_elem_of_lookup. exists 2. reflexivity. }
  specialize (Hall _ Hin eq_refl). discriminate Hall.
Qed.

(** * Further properties of the builder *)

Lemma string_app_inv_head (a s t : string) : a +:+ s = a +:+ t -> s = t.
Proof.
  induction a as [|c a IH]; simpl; [done|].
  intros Heq. injection Heq as Heq. by apply IH.
Qed.

Lemma string_app_nonempty (s : string) (c : ascii) (t : string) :
  s +:+ String c t <> "".
Proof. by destruct s. Qed.

Lemma string_app_inv_tail_char (s t : string) (c : ascii) :
  s +:+ String c "" = t +:+ String c "" -> s = t.
Proof.
  revert t. induction s as [|x s IH]; intros [|y t]; simpl; intros Heq.
  - done.
  - injection Heq as _ Heq. symmetry in Heq.
    by apply string_app_nonempty in Heq.
  - injection Heq as _ Heq. by apply string_app_nonempty in Heq.
  - injection Heq as -> Heq. f_equal. by apply IH.
Qed.

(** X1.  The text of a citation node determines both its citation number
    and its chunk: the label of line 192 loses no information. *)
Theorem source_text_inj (n m : nat) (c d : string) :
  source_text n c = source_text m d -> n = m /\ c = d.
Proof.
  intros Heq.
  assert (Hn : n = m) by (by eapply source_text_number).
  split; [done|]. subst m.
  unfold source_text in Heq. unfold nl in Heq.
  apply string_app_inv_head in Heq.
  apply string_app_inv_head in Heq.
  apply (string_app_inv_head ":") in Heq.
  apply (string_app_inv_head (String (ascii_of_nat 10) "")) in Heq.
  by apply string_app_inv_tail_char in Heq.
Qed.

Lemma source_text_inj_witness :
  source_text 3 "abc" = source_text 3 "abc" /\ 3 = 3 /\ "abc" = "abc".
Proof.
  split; [reflexivity|].
  exact (source_text_inj 3 3 "abc" "abc" eq_refl).
Defined.

Lemma passage_nodes_fields parent splits : forall count count' start_offset,
  node_fields <$> passage_nodes parent count start_offset splits =
  node_fields <$> passage_nodes parent count' start_offset splits.
Proof.
  induction splits as [|split rest IH]; intros count count' start_offset;
    [done|].
  cbn [passage_nodes fmap list_fmap]. f_equal. apply IH.
Qed.

Lemma nodes_from_fields (f : Z -> Z -> string -> list TextSplit) passages :
  forall count count',
  node_fields <$> nodes_from f count passages =
  node_fields <$> nodes_from f count' passages.
Proof.
  induction passages as [|p rest IH]; intros count count'; [done|].
  cbn [nodes_from]. rewrite !fmap_app. f_equal.
  - apply passage_nodes_fields.
  - apply IH.
Qed.

Lemma passage_nodes_parent_fields (p q : NodeWithScore) splits :
  extra_info (node p) = extra_info (node q) ->
  relationships (node p) = relationships (node q) ->
  score p = score q ->
  forall count start_offset,
    passage_nodes p count start_offset splits =
    passage_nodes q count start_offset splits.
Proof.
  intros He Hr Hs.
  induction splits as [|split rest IH]; intros count start_offset; [done|].
  cbn [passage_nodes]. rewrite IH. f_equal.
  unfold citation_node. by rewrite He, Hr, Hs.
Qed.

Lemma consumed_snoc (splits : list TextSplit) (split : TextSplit) :
  consumed (splits ++ [split]) =
  (consumed splits + (Z.of_nat (String.length (text_chunk split)) + 1))%Z.
Proof.
  unfold consumed. induction splits as [|s rest IH]; simpl; [lia|].
  rewrite IH. lia.
Qed.

Lemma passage_nodes_lookup parent splits : forall count start_offset j split,
  splits !! j = Some split ->
  passage_nodes parent count start_offset splits !! j =
  Some (citation_node parent (count + j + 1)
          (start_offset + consumed (take j splits))%Z split).
Proof.
  induction splits as [|s rest IH]; intros count start_offset j split Hj.
  - by rewrite lookup_nil in Hj.
  - destruct j as [|j]; cbn [passage_nodes].
    + injection Hj as ->. simpl. do 2 f_equal; [lia|unfold consumed; simpl; lia].
    + simpl in Hj. cbn [lookup list_lookup]. 
      change ((citation_node parent (count + 1) start_offset s
               :: passage_nodes parent (S count)
                    (start_offset + (Z.of_nat (String.length (text_chunk s)) + 1))%Z
                    rest) !! S j)
        with (passage_nodes parent (S count)
                (start_offset + (Z.of_nat (String.length (text_chunk s)) + 1))%Z
                rest !! j).
      rewrite (IH _ _ _ _ Hj). do 2 f_equal; [lia|].
      unfold consumed. simpl. lia.
Qed.

Section BuilderFurther.

Context {CS : Type}.
Variable split_text_with_overlaps : Z -> Z -> string -> list TextSplit.

Local Abbreviation splits_of := (citation_splits split_text_with_overlaps).
Local Abbreviation build := (_create_citation_nodes split_text_with_overlaps).
Local Abbreviation derived := (derived_from split_text_with_overlaps).

Lemma build_app_nodes_from (self : CitaitonQueryEngine CS) first second :
  build self (first ++ second) =
  build self first ++
  nodes_from split_text_with_overlaps (length (build self first)) second.
Proof. by rewrite !build_eq, nodes_from_app. Qed.

(** X2.  Building from two sequences of passages one after the other: the
    nodes of the first sequence are exactly those it gets on its own; the
    nodes of the second sequence have the fields they get on their own
    (metadata, relationships, positional info, score), only their citation
    numbers continue after those of the first sequence. *)
Theorem build_app (self : CitaitonQueryEngine CS)
    (first second : list NodeWithScore) :
  let out := build self (first ++ second) in
  let k := length (build self first) in
  take k out = build self first /\
  node_fields <$> drop k out = node_fields <$> build self second /\
  (text ∘ node) <$> drop k out =
    zip_with source_text (seq (k + 1) (length (build self second)))
      (chunk_texts split_text_with_overlaps second).
Proof.
  intros out k. subst out k. rewrite build_app_nodes_from.
  rewrite take_app_length, drop_app_length.
  split; [done|]. split.
  - rewrite (build_eq _ self second). apply nodes_from_fields.
  - rewrite nodes_from_texts, (build_eq _ self second).
    by rewrite length_nodes_from, length_chunk_texts.
Qed.

(** X3.  No passage gives no node, and a passage whose text has no split
    (the empty text of the token splitter) adds no node and uses up no
    citation number: the output is that of the input without it. *)
Theorem build_skips_unsplit (self : CitaitonQueryEngine CS)
    (before : list NodeWithScore) (p : NodeWithScore)
    (after : list NodeWithScore) :
  splits_of p = [] ->
  build self [] = [] /\
  build self (before ++ p :: after) = build self (before ++ after).
Proof.
  intros Hsplits. split; [done|].
  rewrite !build_app_nodes_from. f_equal.
  cbn [nodes_from]. rewrite Hsplits. simpl. by rewrite Nat.add_0_r.
Qed.

(** X4.  Every node of the output has a label over some chunk, a
    positional info whose [start] and [end] entries differ by the length of
    that chunk, and metadata and relationship maps that are present. *)
Theorem built_node_shape (self : CitaitonQueryEngine CS)
    (passages : list NodeWithScore) (nd : NodeWithScore) :
  nd ∈ build self passages ->
  exists number chunk start,
    text (node nd) = source_text number chunk /\
    node_start nd = Some start /\
    node_end nd = Some (start + Z.of_nat (String.length chunk))%Z /\
    is_Some (extra_info (node nd)) /\
    is_Some (relationships (node nd)).
Proof.
  rewrite build_eq. generalize 0.
  induction passages as [|p rest IH]; intros count Hin.
  - by apply elem_of_nil in Hin.
  - cbn [nodes_from] in Hin. apply elem_of_app in Hin as [Hin|Hin];
      [|by eapply IH].
    clear IH. revert Hin. generalize (base_offset (node p)) count.
    induction (splits_of p) as [|split splits IHs]; intros offset k Hin.
    + by apply elem_of_nil in Hin.
    + cbn [passage_nodes] in Hin. apply elem_of_cons in Hin as [->|Hin];
        [|by eapply IHs].
      eexists _, _, _.
      split; [reflexivity|]. split; [reflexivity|]. split; [reflexivity|].
      unfold citation_node. cbn [node extra_info relationships]. eauto.
Qed.

(** X5.  A positional info without a [start] entry, the empty dictionary
    included, counts as no positional info: the output is the one built
    from the passage with its positional info removed. *)
Theorem missing_start_is_absent (self : CitaitonQueryEngine CS)
    (before : list NodeWithScore) (p : NodeWithScore)
    (after : list NodeWithScore) (info : gmap string Z) :
  node_info (node p) = Some info ->
  info !! "start" = None ->
  build self (before ++ p :: after) =
  build self (before ++ with_node_info None p :: after).
Proof.
  intros Hinfo Hstart. rewrite !build_app_nodes_from. f_equal.
  cbn [nodes_from].
  assert (Hbase : base_offset (node p) =
                  base_offset (node (with_node_info None p))).
  { unfold base_offset. rewrite Hinfo. simpl.
    case_decide; [done|by rewrite Hstart]. }
  assert (Hsplits : splits_of (with_node_info None p) = splits_of p) by done.
  rewrite Hsplits, <- Hbase. f_equal.
  by apply passage_nodes_parent_fields.
Qed.

(** X6.  The offsets of the j-th node derived from a passage in closed
    form: its start is the base offset of the passage, plus the chunk
    lengths of the earlier splits and one for each of them, minus its own
    declared overlap; the overlaps of earlier splits play no part. *)
Theorem offsets_closed_form (self : CitaitonQueryEngine CS)
    (before : list NodeWithScore) (p : NodeWithScore)
    (after : list NodeWithScore) (j : nat) (split : TextSplit) :
  splits_of p !! j = Some split ->
  exists nd,
    derived self before p after !! j = Some nd /\
    node_start nd =
      Some (base_offset (node p) + consumed (take j (splits_of p))
            - or_zero (num_char_overlap split))%Z /\
    node_end nd =
      Some (base_offset (node p) + consumed (take j (splits_of p))
            - or_zero (num_char_overlap split)
            + Z.of_nat (String.length (text_chunk split)))%Z.
Proof.
  intros Hj. rewrite derived_from_eq.
  rewrite (passage_nodes_lookup _ _ _ _ _ _ Hj).
  eexists. split; [done|]. split; reflexivity.
Qed.

(** X7.  When no split declares more overlap than the length of the chunk
    before it, the starts of the nodes derived from a passage are strictly
    increasing. *)
Theorem starts_increase (self : CitaitonQueryEngine CS)
    (before : list NodeWithScore) (p : NodeWithScore)
    (after : list NodeWithScore) :
  (forall j a b,
     splits_of p !! j = Some a -> splits_of p !! S j = Some b ->
     (or_zero (num_char_overlap b) <=
      Z.of_nat (String.length (text_chunk a)))%Z) ->
  forall j n1 n2,
    derived self before p after !! j = Some n1 ->
    derived self before p after !! S j = Some n2 ->
    exists s1 s2,
      node_start n1 = Some s1 /\ node_start n2 = Some s2 /\ (s1 < s2)%Z.
Proof.
  intros Hbound j n1 n2. rewrite derived_from_eq. intros H1 H2.
  assert (Hlen : S j < length (splits_of p)).
  { apply lookup_lt_Some in H2. by rewrite length_passage_nodes in H2. }
  destruct (lookup_lt_is_Some_2 (splits_of p) j) as [a Ha]; [lia|].
  destruct (lookup_lt_is_Some_2 (splits_of p) (S j)) as [b Hb]; [lia|].
  rewrite (passage_nodes_lookup _ _ _ _ _ _ Ha) in H1.
  rewrite (passage_nodes_lookup _ _ _ _ _ _ Hb) in H2.
  injection H1 as <-. injection H2 as <-.
  eexists _, _. split; [reflexivity|]. split; [reflexivity|].
  rewrite (take_S_r _ _ _ Ha), consumed_snoc.
  specialize (Hbound j a b Ha Hb).
  assert (0 <= or_zero (num_char_overlap a))%Z.
  { rewrite or_zero_of_nat. lia. }
  lia.
Qed.

End BuilderFurther.

(** * Further properties of the orchestrator *)

Section OrchestratorFurther.

Context {CS : Type}.
Variable split_text_with_overlaps : Z -> Z -> string -> list TextSplit.

Local Abbreviation build := (_create_citation_nodes split_text_with_overlaps).
Local Abbreviation query := (_query split_text_with_overlaps).
Local Abbreviation aquery := (_aquery split_text_with_overlaps).

(** What [_query] adds to the trace, by outcome of the collaborators. *)
Lemma query_emitted (self : CitaitonQueryEngine CS) (qb : QueryBundle)
    (w : World CS) :
  emitted (query self qb) w =
  [ OnEventStart QUERY (Some {[ "query_str" := PVStr (query_str qb) ]})
      (next_event_id w);
    OnEventStart RETRIEVE None (S (next_event_id w));
    CallRetrieve qb ] ++
  match BaseRetriever.retrieve (_retriever self) qb (collab w) with
  | (Raised _, _) => []
  | (Returned found, cs1) =>
      [ OnEventEnd RETRIEVE (Some {[ "nodes" := PVNodes (build self found) ]})
          (S (next_event_id w));
        CallSynthesize qb (build self found) None ] ++
      match ResponseSynthesizer.synthesize (_response_synthesizer self)
              qb (build self found) None cs1 with
      | (Raised _, _) => []
      | (Returned r, _) =>
          [ OnEventEnd QUERY (Some {[ "response" := PVResponse r ]})
              (next_event_id w) ]
      end
  end.
Proof.
  apply emitted_app. rewrite query_run. cbv zeta.
  destruct (BaseRetriever.retrieve _ _ _) as [[found|e] cs1];
    [|by rewrite app_nil_r].
  destruct (ResponseSynthesizer.synthesize _ _ _ _ _) as [[r|e] cs2];
    cbn [snd trace]; by rewrite <- ?app_assoc, ?app_nil_r.
Qed.

Lemma aquery_emitted (self : CitaitonQueryEngine CS) (qb : QueryBundle)
    (w : World CS) :
  emitted (aquery self qb) w =
  [ OnEventStart QUERY (Some {[ "query_str" := PVStr (query_str qb) ]})
      (next_event_id w);
    OnEventStart RETRIEVE None (S (next_event_id w));
    CallRetrieve qb ] ++
  match BaseRetriever.retrieve (_retriever self) qb (collab w) with
  | (Raised _, _) => []
  | (Returned found, cs1) =>
      [ OnEventEnd RETRIEVE (Some {[ "nodes" := PVNodes (build self found) ]})
          (S (next_event_id w));
        AwaitAsynthesize qb (build self found) None ] ++
      match ResponseSynthesizer.asynthesize (_response_synthesizer self)
              qb (build self found) None cs1 with
      | (Raised _, _) => []
      | (Returned r, _) =>
          [ OnEventEnd QUERY (Some {[ "response" := PVResponse r ]})
              (next_event_id w) ]
      end
  end.
Proof.
  apply emitted_app. rewrite aquery_run. cbv zeta.
  destruct (BaseRetriever.retrieve _ _ _) as [[found|e] cs1];
    [|by rewrite app_nil_r].
  destruct (ResponseSynthesizer.asynthesize _ _ _ _ _) as [[r|e] cs2];
    cbn [snd trace]; by rewrite <- ?app_assoc, ?app_nil_r.
Qed.

Lemma retrieve_then_synthesize_run (self : CitaitonQueryEngine CS)
    (qb : QueryBundle) (w : World CS) :
  retrieve_then_synthesize split_text_with_overlaps self qb w =
  match BaseRetriever.retrieve (_retriever self) qb (collab w) with
  | (Raised e, cs1) =>
      (Raised e, {| collab := cs1; trace := trace w ++ [CallRetrieve qb];
                    next_event_id := next_event_id w |})
  | (Returned found, cs1) =>
      ((ResponseSynthesizer.synthesize (_response_synthesizer self)
          qb (build self found) None cs1).1,
       {| collab :=
            (ResponseSynthesizer.synthesize (_response_synthesizer self)
               qb (build self found) None cs1).2;
          trace := trace w ++
                   [ CallRetrieve qb;
                     CallSynthesize qb (build self found) None ];
          next_event_id := next_event_id w |})
  end.
Proof.
  unfold retrieve_then_synthesize, retrieve, synthesize, M_bind, M_ret,
    BaseRetriever.call, ResponseSynthesizer.call.
  destruct (BaseRetriever.retrieve _ _ _) as [[found|e] cs1]; [|done].
  cbn [collab trace next_event_id].
  destruct (ResponseSynthesizer.synthesize _ _ _ _ _) as [[r|e] cs2];
    cbn [fst snd]; by rewrite <- app_assoc.
Qed.

Lemma retrieve_then_asynthesize_run (self : CitaitonQueryEngine CS)
    (qb : QueryBundle) (w : World CS) :
  retrieve_then_asynthesize split_text_with_overlaps self qb w =
  match BaseRetriever.retrieve (_retriever self) qb (collab w) with
  | (Raised e, cs1) =>
      (Raised e, {| collab := cs1; trace := trace w ++ [CallRetrieve qb];
                    next_event_id := next_event_id w |})
  | (Returned found, cs1) =>
      ((ResponseSynthesizer.asynthesize (_response_synthesizer self)
          qb (build self found) None cs1).1,
       {| collab :=
            (ResponseSynthesizer.asynthesize (_response_synthesizer self)
               qb (build self found) None cs1).2;
          trace := trace w ++
                   [ CallRetrieve qb;
                     AwaitAsynthesize qb (build self found) None ];
          next_event_id := next_event_id w |})
  end.
Proof.
  unfold retrieve_then_asynthesize, retrieve, asynthesize, M_bind,
    BaseRetriever.call, ResponseSynthesizer.await.
  destruct (BaseRetriever.retrieve _ _ _) as [[found|e] cs1]; [|done].
  cbn [collab trace next_event_id].
  destruct (ResponseSynthesizer.asynthesize _ _ _ _ _) as [[r|e] cs2];
    cbn [fst snd]; by rewrite <- app_assoc.
Qed.

(** X8.  A caller that runs [retrieve] and then [synthesize] on the
    passages it got reaches the outcome and the collaborator state of
    [_query], and makes exactly the collaborator calls of [_query] with the
    same arguments; it emits no notification.  The same holds for
    [retrieve] followed by [asynthesize] against [_aquery]. *)
Theorem public_steps_compose_to_query (self : CitaitonQueryEngine CS)
    (qb : QueryBundle) (w : World CS) :
  let steps := retrieve_then_synthesize split_text_with_overlaps self qb in
  let asteps := retrieve_then_asynthesize split_text_with_overlaps self qb in
  ((steps w).1 = (query self qb w).1 /\
   collab (steps w).2 = collab (query self qb w).2 /\
   emitted steps w = collaborator_calls (emitted (query self qb) w)) /\
  ((asteps w).1 = (aquery self qb w).1 /\
   collab (asteps w).2 = collab (aquery self qb w).2 /\
   emitted asteps w = collaborator_calls (emitted (aquery self qb) w)).
Proof.
  intros steps asteps. subst steps asteps. split.
  - rewrite query_emitted.
    assert (Hemitted :
      trace (retrieve_then_synthesize split_text_with_overlaps self qb w).2 =
      trace w ++ CallRetrieve qb ::
        match BaseRetriever.retrieve (_retriever self) qb (collab w) with
        | (Raised _, _) => []
        | (Returned found, _) => [ CallSynthesize qb (build self found) None ]
        end).
    { rewrite retrieve_then_synthesize_run.
      by destruct (BaseRetriever.retrieve _ _ _) as [[found|e] cs1]. }
    rewrite (emitted_app _ _ _ Hemitted).
    rewrite retrieve_then_synthesize_run, query_run. cbv zeta.
    destruct (BaseRetriever.retrieve _ _ _) as [[found|e] cs1]; [|done].
    by destruct (ResponseSynthesizer.synthesize _ _ _ _ _) as [[r|e] cs2].
  - rewrite aquery_emitted.
    assert (Hemitted :
      trace (retrieve_then_asynthesize split_text_with_overlaps self qb w).2 =
      trace w ++ CallRetrieve qb ::
        match BaseRetriever.retrieve (_retriever self) qb (collab w) with
        | (Raised _, _) => []
        | (Returned found, _) => [ AwaitAsynthesize qb (build self found) None ]
        end).
    { rewrite retrieve_then_asynthesize_run.
      by destruct (BaseRetriever.retrieve _ _ _) as [[found|e] cs1]. }
    rewrite (emitted_app _ _ _ Hemitted).
    rewrite retrieve_then_asynthesize_run, aquery_run. cbv zeta.
    destruct (BaseRetriever.retrieve _ _ _) as [[found|e] cs1]; [|done].
    by destruct (ResponseSynthesizer.asynthesize _ _ _ _ _) as [[r|e] cs2].
Qed.

(** X9.  [_query] calls the retriever exactly once, with the query bundle
    it was given, and the synthesizer exactly when the retriever returned
    (also when it returned no passage), with the same query bundle, the
    built citation nodes and no additional source nodes; it never awaits. *)
Theorem query_collaborator_calls (self : CitaitonQueryEngine CS)
    (qb : QueryBundle) (w : World CS) :
  collaborator_calls (emitted (query self qb) w) =
    CallRetrieve qb ::
    match BaseRetriever.retrieve (_retriever self) qb (collab w) with
    | (Returned found, _) => [ CallSynthesize qb (build self found) None ]
    | (Raised _, _) => []
    end /\
  suspension_points (emitted (query self qb) w) = [].
Proof.
  rewrite query_emitted.
  destruct (BaseRetriever.retrieve _ _ _) as [[found|e] cs1]; [|done].
  by destruct (ResponseSynthesizer.synthesize _ _ _ _ _) as [[r|e] cs2].
Qed.

End OrchestratorFurther.

(** ** Notifications in every outcome *)

(** Walks along an explicit list of actions that is split at an end
    event: positions that hold another action are ruled out, and at an end
    event the matching start event is looked up among the earlier
    actions. *)
Ltac find_start :=
  eexists;
  repeat first [ apply list_elem_of_here | apply list_elem_of_further ].

Ltac walk_ends before Heq :=
  destruct before as [|? before]; cbn [app] in Heq;
  [ first [ discriminate Heq
          | injection Heq as <- <- <- <-; find_start ]
  | first [ discriminate Heq
          | injection Heq as <- Heq; walk_ends before Heq ] ].

Section NotificationFacts.

Context {CS : Type}.
Variable split_text_with_overlaps : Z -> Z -> string -> list TextSplit.

Local Abbreviation build := (_create_citation_nodes split_text_with_overlaps).
Local Abbreviation query := (_query split_text_with_overlaps).
Local Abbreviation aquery := (_aquery split_text_with_overlaps).

(** X10.  Whatever the collaborators do, both query paths first emit the
    start of the query event and the start of the retrieve event and then
    call the retriever; and every end event they emit carries the type and
    the identifier of a start event emitted before it in the same call. *)
Theorem notifications_well_formed (self : CitaitonQueryEngine CS)
    (qb : QueryBundle) (w : World CS) :
  let opening :=
    [ OnEventStart QUERY (Some {[ "query_str" := PVStr (query_str qb) ]})
        (next_event_id w);
      OnEventStart RETRIEVE None (S (next_event_id w));
      CallRetrieve qb ] in
  take 3 (emitted (query self qb) w) = opening /\
  take 3 (emitted (aquery self qb) w) = opening /\
  ends_follow_starts (emitted (query self qb) w) /\
  ends_follow_starts (emitted (aquery self qb) w).
Proof.
  intros opening. subst opening.
  rewrite query_emitted, aquery_emitted.
  split; [done|]. split; [done|]. split.
  - destruct (BaseRetriever.retrieve _ _ _) as [[found|e] cs1];
      [destruct (ResponseSynthesizer.synthesize _ _ _ _ _) as [[r|e] cs2]|];
      cbn [app]; intros before ty payload eid after Heq;
      walk_ends before Heq.
  - destruct (BaseRetriever.retrieve _ _ _) as [[found|e] cs1];
      [destruct (ResponseSynthesizer.asynthesize _ _ _ _ _) as [[r|e] cs2]|];
      cbn [app]; intros before ty payload eid after Heq;
      walk_ends before Heq.
Qed.

End NotificationFacts.

(** ** Construction *)

(** X11.  The [text_splitter] attribute is never read: engines constructed
    with different [source_chunk_size], [source_chunk_overlap] and
    [text_splitter] but the same retriever and synthesizer behave alike in
    every operation, and the [retriever] property returns the retriever
    given to the constructor. *)
Theorem constructor_splitter_unused {CS : Type}
    (split_text_with_overlaps : Z -> Z -> string -> list TextSplit)
    (default_synthesizer : ResponseSynthesizer.t CS)
    (r : BaseRetriever.t CS)
    (response_synthesizer : option (ResponseSynthesizer.t CS))
    (size1 overlap1 size2 overlap2 : Z)
    (splitter1 splitter2 : option TextSplitter)
    (qb : QueryBundle) (passages : list NodeWithScore)
    (additional : option (list NodeWithScore)) (w : World CS) :
  let e1 := __init__ default_synthesizer r response_synthesizer
              size1 overlap1 splitter1 in
  let e2 := __init__ default_synthesizer r response_synthesizer
              size2 overlap2 splitter2 in
  retriever e1 = r /\ retriever e2 = r /\
  retrieve e1 qb w = retrieve e2 qb w /\
  synthesize split_text_with_overlaps e1 qb passages additional w =
    synthesize split_text_with_overlaps e2 qb passages additional w /\
  asynthesize split_text_with_overlaps e1 qb passages additional w =
    asynthesize split_text_with_overlaps e2 qb passages additional w /\
  _query split_text_with_overlaps e1 qb w =
    _query split_text_with_overlaps e2 qb w /\
  _aquery split_text_with_overlaps e1 qb w =
    _aquery split_text_with_overlaps e2 qb w.
Proof. intros e1 e2. repeat split. Qed.

(** ** The templates and the labels *)

(** X13.  The worked example inside both prompt templates is written in the
    label format of the builder: when the two example passages are one
    chunk each, the texts of their citation nodes, one after the other, are
    a substring of each template.  The question-answer template carries the
    placeholders [{context_str}] and [{query_str}], the refine template
    [{existing_answer}], [{context_msg}] and [{query_str}]. *)
Theorem template_example_in_label_format {CS : Type}
    (split_text_with_overlaps : Z -> Z -> string -> list TextSplit)
    (self : CitaitonQueryEngine CS) (sky water : NodeWithScore) :
  text_chunk <$> citation_splits split_text_with_overlaps sky =
    [ "The sky is red in the evening and blue in the morning." ] ->
  text_chunk <$> citation_splits split_text_with_overlaps water =
    [ "Water is wet when the sky is red." ] ->
  let rendered :=
    concat_strings
      ((text ∘ node) <$>
         _create_citation_nodes split_text_with_overlaps self [sky; water]) in
  (occurs_in rendered CITATION_QA_TEMPLATE /\
   occurs_in rendered CITATION_REFINE_TEMPLATE) /\
  (occurs_in "{context_str}" CITATION_QA_TEMPLATE /\
   occurs_in "{query_str}" CITATION_QA_TEMPLATE) /\
  (occurs_in "{existing_answer}" CITATION_REFINE_TEMPLATE /\
   occurs_in "{context_msg}" CITATION_REFINE_TEMPLATE /\
   occurs_in "{query_str}" CITATION_REFINE_TEMPLATE).
Proof.
  intros Hsky Hwater rendered.
  assert (Hrendered : rendered =
    concat_strings
      [ source_text 1 "The sky is red in the evening and blue in the morning.";
        source_text 2 "Water is wet when the sky is red." ]).
  { subst rendered. rewrite build_eq, nodes_from_texts.
    rewrite !chunk_texts_cons, Hsky, Hwater. reflexivity. }
  rewrite Hrendered. repeat split.
  - exists 319. vm_compute. reflexivity.
  - exists 254. vm_compute. reflexivity.
  - exists 617. vm_compute. reflexivity.
  - exists 645. vm_compute. reflexivity.
  - exists 531. vm_compute. reflexivity.
  - exists 740. vm_compute. reflexivity.
  - exists 768. vm_compute. reflexivity.
Qed.

(** ** The further properties in the scenario *)

Lemma build_skips_unsplit_witness :
  citation_splits scenario_split passage_blank = [] /\
  _create_citation_nodes scenario_split scenario_engine
    ([passage_sky] ++ passage_blank :: [passage_water]) =
  _create_citation_nodes scenario_split scenario_engine
    ([passage_sky] ++ [passage_water]).
Proof.
  split; [reflexivity|].
  exact (proj2 (build_skips_unsplit scenario_split scenario_engine
                  [passage_sky] passage_blank [passage_water] eq_refl)).
Defined.

Lemma built_node_shape_witness :
  citation_node passage_water 1 0
    (mkTextSplit "Water is wet when the sky is red." None)
    ∈ _create_citation_nodes scenario_split scenario_engine [passage_water] /\
  exists number chunk start,
    text (node (citation_node passage_water 1 0
                  (mkTextSplit "Water is wet when the sky is red." None))) =
      source_text number chunk /\
    node_start (citation_node passage_water 1 0
                  (mkTextSplit "Water is wet when the sky is red." None)) =
      Some start /\
    node_end (citation_node passage_water 1 0
                (mkTextSplit "Water is wet when the sky is red." None)) =
      Some (start + Z.of_nat (String.length chunk))%Z /\
    is_Some (extra_info (node (citation_node passage_water 1 0
                (mkTextSplit "Water is wet when the sky is red." None)))) /\
    is_Some (relationships (node (citation_node passage_water 1 0
                (mkTextSplit "Water is wet when the sky is red." None)))).
Proof.
  assert (Hin : citation_node passage_water 1 0
            (mkTextSplit "Water is wet when the sky is red." None)
          ∈ _create_citation_nodes scenario_split scenario_engine
              [passage_water]) by apply list_elem_of_here.
  split; [exact Hin|].
  exact (built_node_shape scenario_split scenario_engine [passage_water]
           _ Hin).
Defined.

Lemma missing_start_is_absent_witness :
  node_info (node passage_end_only) = Some {[ "end" := 30%Z ]} /\
  ({[ "end" := 30%Z ]} : gmap string Z) !! "start" = None /\
  _create_citation_nodes scenario_split scenario_engine
    ([passage_sky] ++ passage_end_only :: []) =
  _create_citation_nodes scenario_split scenario_engine
    ([passage_sky] ++ with_node_info None passage_end_only :: []).
Proof.
  split; [reflexivity|]. split; [reflexivity|].
  exact (missing_start_is_absent scenario_split scenario_engine
           [passage_sky] passage_end_only [] {[ "end" := 30%Z ]}
           eq_refl eq_refl).
Defined.

Lemma offsets_closed_form_witness :
  citation_splits scenario_split passage_plain_at_100 !! 1 =
    Some (mkTextSplit "tuvwxyz0123" (Some 1)) /\
  exists nd,
    derived_from scenario_split scenario_engine
      [passage_sky] passage_plain_at_100 [] !! 1 = Some nd /\
    node_start nd =
      Some (base_offset (node passage_plain_at_100) +
            consumed (take 1 (citation_splits scenario_split passage_plain_at_100))
            - or_zero (Some 1%nat))%Z /\
    node_end nd =
      Some (base_offset (node passage_plain_at_100) +
            consumed (take 1 (citation_splits scenario_split passage_plain_at_100))
            - or_zero (Some 1%nat) + Z.of_nat (String.length "tuvwxyz0123"))%Z.
Proof.
  split; [reflexivity|].
  exact (offsets_closed_form scenario_split scenario_engine
           [passage_sky] passage_plain_at_100 [] 1
           (mkTextSplit "tuvwxyz0123" (Some 1)) eq_refl).
Defined.

Lemma scenario_overlaps_bounded (j : nat) (a b : TextSplit) :
  citation_splits scenario_split passage_plain_at_100 !! j = Some a ->
  citation_splits scenario_split passage_plain_at_100 !! S j = Some b ->
  (or_zero (num_char_overlap b) <= Z.of_nat (String.length (text_chunk a)))%Z.
Proof.
  destruct j as [|[|j]]; intros Ha Hb.
  - injection Ha as <-. injection Hb as <-. by vm_compute.
  - discriminate Hb.
  - discriminate Hb.
Defined.

Lemma starts_increase_witness :
  (forall j a b,
     citation_splits scenario_split passage_plain_at_100 !! j = Some a ->
     citation_splits scenario_split passage_plain_at_100 !! S j = Some b ->
     (or_zero (num_char_overlap b) <=
      Z.of_nat (String.length (text_chunk a)))%Z) /\
  (forall j n1 n2,
     derived_from scenario_split scenario_engine
       [passage_sky] passage_plain_at_100 [] !! j = Some n1 ->
     derived_from scenario_split scenario_engine
       [passage_sky] passage_plain_at_100 [] !! S j = Some n2 ->
     exists s1 s2,
       node_start n1 = Some s1 /\ node_start n2 = Some s2 /\ (s1 < s2)%Z) /\
  node_start <$>
    derived_from scenario_split scenario_engine
      [passage_sky] passage_plain_at_100 [] = [ Some 100%Z; Some 120%Z ].
Proof.
  split; [exact scenario_overlaps_bounded|]. split; [|reflexivity].
  exact (starts_increase scenario_split scenario_engine
           [passage_sky] passage_plain_at_100 [] scenario_overlaps_bounded).
Defined.

Lemma template_example_in_label_format_witness :
  text_chunk <$> citation_splits scenario_split passage_sky =
    [ "The sky is red in the evening and blue in the morning." ] /\
  text_chunk <$> citation_splits scenario_split passage_water =
    [ "Water is wet when the sky is red." ] /\
  occurs_in
    (concat_strings ((text ∘ node) <$> scenario_citations))
    CITATION_QA_TEMPLATE /\
  occurs_in
    (concat_strings ((text ∘ node) <$> scenario_citations))
    CITATION_REFINE_TEMPLATE.
Proof.
  split; [reflexivity|]. split; [reflexivity|].
  exact (proj1 (template_example_in_label_format scenario_split
                  scenario_engine passage_sky passage_water
                  eq_refl eq_refl)).
Defined.
